(** * Table-migration status: record, index, seen-table scan and refresh

    A shallow embedding of
    [src/databricks/labs/ucx/hive_metastore/table_migration_status.py].

    Python values are modelled as follows.
    - [str] is [string]; [str.lower] is the lower-casing of the ASCII
      letters (text outside ASCII is left as it is).
    - [X | None] is [option X]; truthiness ([not x]) is written out.
    - [dict] with point lookups only is a [gmap]; a [dict] whose iteration
      order is observed is an insertion-ordered association list ([PyDict]).
    - an iterator is the list of items it yields followed by either exhaustion
      or a raised exception ([Iter]); a call that may raise returns [result]. *)

From Stdlib Require Import Ascii String.
From stdpp Require Import base option list strings gmap fin_maps sorting.

Local Open Scope string_scope.

(** ** Python primitives used by the module *)

Module Py.

(** One character of [str.lower]: [A]..[Z] are moved to [a]..[z]. *)
Definition lower_ascii (c : ascii) : ascii :=
  let n := nat_of_ascii c in
  if (65 <=? n)%nat && (n <=? 90)%nat then ascii_of_nat (n + 32) else c.

(** [s.lower()], character by character. This is [str.lower] on ASCII text.
    On text with cased characters outside ASCII [str.lower] does more, and
    not character by character; statements that need lower-casing to go
    through concatenation are therefore stated for ASCII text. *)
Fixpoint lower (s : string) : string :=
  match s with
  | EmptyString => EmptyString
  | String c s' => String (lower_ascii c) (lower s')
  end.

(** [str(x)] as used by an f-string field [{x}] for [x : str | None]. *)
Definition str (o : option string) : string :=
  match o with
  | Some s => s
  | None => "None"
  end.

(** [bool(x)] for [x : str | None]: [None] and [""] are falsy. *)
Definition truthy (o : option string) : bool :=
  match o with
  | Some (String _ _) => true
  | _ => false
  end.

(** [needle in hay] on strings. *)
Fixpoint contains (needle hay : string) : bool :=
  String.prefix needle hay ||
  match hay with
  | EmptyString => false
  | String _ hay' => contains needle hay'
  end.

(** [s.split(sep)] for a one-character separator: never empty, one more
    piece than there are separators. *)
Fixpoint split (sep : ascii) (s : string) : list string :=
  match s with
  | EmptyString => [EmptyString]
  | String c s' =>
      if Ascii.eqb c sep then EmptyString :: split sep s'
      else match split sep s' with
           | [] => [String c EmptyString]
           | w :: ws => String c w :: ws
           end
  end.

End Py.

(** ** Exceptions, results and iterators *)

(** The exceptions of [databricks.sdk.errors] the module handles:
    [NotFound] is a subclass of [DatabricksError]; [RemoteError] stands for an
    instance of [DatabricksError] that is not a [NotFound]. *)
Inductive DatabricksError : Type :=
  | NotFound
  | RemoteError.

(** Outcome of a call: a value is returned or an exception propagates. *)
Inductive result (A : Type) : Type :=
  | Return (a : A)
  | Raise (e : DatabricksError).
Arguments Return {A} a.
Arguments Raise {A} e.

(** An iterator consumed to its end: the items it yields, in order, and then
    either exhaustion ([raised = None]) or the exception it raises. *)
Record Iter (A : Type) : Type := MkIter {
  yielded : list A;
  raised : option DatabricksError
}.
Arguments MkIter {A} yielded raised.
Arguments yielded {A} i.
Arguments raised {A} i.

(** ** Migration status record *)

Record TableMigrationStatus : Type := MkTableMigrationStatus {
  src_schema : string;
  src_table : string;
  dst_catalog : option string;
  dst_schema : option string;
  dst_table : option string;
  update_ts : option string
}.

(** [TableMigrationStatus.destination] *)
Definition destination (self : TableMigrationStatus) : string :=
  Py.lower (Py.str (dst_catalog self) +:+ "." +:+ Py.str (dst_schema self)
            +:+ "." +:+ Py.str (dst_table self)).

(** ** Legacy table view *)

Module TableView.

Record t : Type := Mk {
  catalog : string;
  schema : string;
  name : string
}.

Definition key (self : t) : string :=
  Py.lower (catalog self +:+ "." +:+ schema self +:+ "." +:+ name self).

End TableView.

(** ** Migration index *)

Module TableMigrationIndex.

Record t : Type := Mk { _index : gmap (string * string) TableMigrationStatus }.

(** [__init__]: the dict comprehension
    [{(ms.src_schema, ms.src_table): ms for ms in tables}]; a later record
    replaces an earlier one with the same key. *)
Definition init (tables : list TableMigrationStatus) : t :=
  {| _index := foldl (fun m ms => <[(src_schema ms, src_table ms) := ms]> m) ∅ tables |}.

Definition get (self : t) (schema table : string) : option TableMigrationStatus :=
  match _index self !! (Py.lower schema, Py.lower table) with
  | None => None
  | Some dst => if negb (Py.truthy (dst_table dst)) then None else Some dst
  end.

Definition is_migrated (self : t) (schema table : string) : bool :=
  match get self schema table with
  | Some _ => true
  | None => false
  end.

(** [snapshot]: the keys of the dictionary, as a set. *)
Definition snapshot (self : t) : gset (string * string) := dom (_index self).

End TableMigrationIndex.

(** ** Insertion-ordered dictionaries

    A Python [dict] keeps its keys in the order of first insertion; assigning
    to a key that is present replaces the value where it stands. *)

Module PyDict.
Section dict.
Context {K V : Type} `{EqDecision K}.

(** [d.get(k)]; [k in d] is [get k d ≠ None] and [d[k]] its value. *)
Fixpoint get (k : K) (d : list (K * V)) : option V :=
  match d with
  | [] => None
  | (k', v) :: d' => if decide (k = k') then Some v else get k d'
  end.

(** [d[k] = v] *)
Fixpoint set (k : K) (v : V) (d : list (K * V)) : list (K * V) :=
  match d with
  | [] => [(k, v)]
  | (k', v') :: d' =>
      if decide (k = k') then (k', v) :: d' else (k', v') :: set k v d'
  end.

(** [d.items()] *)
Definition items (d : list (K * V)) : list (K * V) := d.
End dict.

(** [{v: k for k, v in d.items()}] *)
Definition invert {K V : Type} `{EqDecision V} (d : list (K * V)) : list (V * K) :=
  foldl (fun acc kv => set (snd kv) (fst kv) acc) [] (items d).

End PyDict.

(** ** Collaborators *)

(** [databricks.sdk.service.catalog.CatalogType] *)
Inductive CatalogType : Type :=
  | DELTASHARING_CATALOG
  | MANAGED_CATALOG
  | SYSTEM_CATALOG.

#[global] Instance CatalogType_eq_dec : EqDecision CatalogType.
Proof. solve_decision. Defined.

Module CatalogInfo.
Record t : Type := Mk {
  name : option string;
  catalog_type : option CatalogType
}.
End CatalogInfo.

Module SchemaInfo.
Record t : Type := Mk {
  catalog_name : option string;
  name : option string;
  full_name : option string
}.
End SchemaInfo.

Module TableInfo.
Record t : Type := Mk {
  name : option string;
  full_name : option string;
  properties : option (gmap string string)
}.
End TableInfo.

(** A row returned by [SHOW TBLPROPERTIES t ('p')]. *)
Module Row.
Record t : Type := Mk {
  key : string;
  value : string
}.
End Row.

Module Table.
(** Modelled from the spec: the legacy-table descriptor of the Table Inventory
    ([hive_metastore/tables.py], class [Table]), which exposes the schema name,
    the table name and the fully qualified key. *)
Record t : Type := Mk {
  database : string;
  name : string;
  key : string
}.
End Table.

(** The state of the remote collaborators during one pass: what each call
    answers. [ws_*] are the workspace client's listings, [sql_fetch] is
    [SqlBackend.fetch] applied to a statement. *)
Record World : Type := MkWorld {
  ws_catalogs_list : Iter CatalogInfo.t;
  ws_schemas_list : string → Iter SchemaInfo.t;
  ws_tables_list : string → string → Iter TableInfo.t;
  sql_fetch : string → Iter Row.t
}.

(** [list(it)]: all the items, or the exception the iterator raises. *)
Definition to_list {A : Type} (it : Iter A) : result (list A) :=
  match raised it with
  | None => Return (yielded it)
  | Some e => Raise e
  end.

(** A generator whose body is [for x in xs: <body x>] followed by [rest]:
    the pieces are yielded in order up to the first one that raises. *)
Fixpoint for_yield {A B : Type} (xs : list A) (body : A → Iter B) (rest : Iter B) : Iter B :=
  match xs with
  | [] => rest
  | x :: xs' =>
      let r := body x in
      match raised r with
      | Some e => MkIter (yielded r) (Some e)
      | None =>
          let r' := for_yield xs' body rest in
          MkIter (yielded r ++ yielded r') (raised r')
      end
  end.

(** ** The refresher *)

Module TableMigrationStatusRefresher.

Definition _skip_catalog_types : list CatalogType := [SYSTEM_CATALOG].

(** [catalog.catalog_type in self._skip_catalog_types] *)
Definition skipped (catalog : CatalogInfo.t) : bool :=
  match CatalogInfo.catalog_type catalog with
  | Some ty => bool_decide (ty ∈ _skip_catalog_types)
  | None => false
  end.

(** [_iter_catalogs]: the whole loop sits in a [try]; any [DatabricksError]
    of the listing is logged and ends the generator. *)
Definition _iter_catalogs (w : World) : Iter CatalogInfo.t :=
  let it := ws_catalogs_list w in
  MkIter (List.filter (fun catalog => negb (skipped catalog)) (yielded it))
         match raised it with
         | None => None
         | Some NotFound => None
         | Some RemoteError => None
         end.

(** The body of the loop of [_iter_schemas] for one catalog:
    [yield from self._ws.schemas.list(...)] under [try]. *)
Definition schemas_of (w : World) (catalog : CatalogInfo.t) : Iter SchemaInfo.t :=
  match CatalogInfo.name catalog with
  | None => MkIter [] None
  | Some name =>
      let it := ws_schemas_list w name in
      MkIter (yielded it)
             match raised it with
             | None => None
             | Some NotFound => None
             | Some RemoteError => None
             end
  end.

Definition _iter_schemas (w : World) : Iter SchemaInfo.t :=
  let catalogs := _iter_catalogs w in
  for_yield (yielded catalogs) (schemas_of w) (MkIter [] (raised catalogs)).

(** The body of the inner loop of [get_seen_tables] for one table. *)
Definition see_table (seen_tables : list (string * string)) (table : TableInfo.t)
  : list (string * string) :=
  match TableInfo.properties table with
  | None => seen_tables
  | Some properties =>
      if bool_decide (properties = ∅) then seen_tables
      else match properties !! "upgraded_from" with
           | None => seen_tables
           | Some upgraded_from =>
               match TableInfo.full_name table with
               | None => seen_tables
               | Some EmptyString => seen_tables
               | Some full_name =>
                   PyDict.set (Py.lower full_name) (Py.lower upgraded_from) seen_tables
               end
           end
  end.

(** The body of the outer loop of [get_seen_tables] for one schema. *)
Definition see_schema (w : World) (seen_tables : list (string * string))
  (schema : SchemaInfo.t) : list (string * string) :=
  match SchemaInfo.catalog_name schema, SchemaInfo.name schema with
  | Some catalog_name, Some name =>
      match to_list (ws_tables_list w catalog_name name) with
      | Raise NotFound => seen_tables
      | Raise RemoteError => seen_tables
      | Return tables => foldl see_table seen_tables tables
      end
  | _, _ => seen_tables
  end.

Definition get_seen_tables (w : World) : result (list (string * string)) :=
  let schemas := _iter_schemas w in
  let seen_tables := foldl (see_schema w) [] (yielded schemas) in
  match raised schemas with
  | None => Return seen_tables
  | Some e => Raise e
  end.

(** The [for result in results] loop of [is_migrated]: [true] when it leaves
    through [return True], [false] when the rows are exhausted. *)
Fixpoint marker_row (results : list Row.t) : bool :=
  match results with
  | [] => false
  | result :: results' =>
      if Py.contains "does not have property" (Row.value result)
      then marker_row results'
      else true
  end.

Section WithUtils.

(** [framework.utils.escape_sql_identifier], which is not part of the sources
    at hand: any function on strings. *)
Variable escape_sql_identifier : string → string.

Definition show_tblproperties (schema table : string) : string :=
  "SHOW TBLPROPERTIES " +:+ escape_sql_identifier (schema +:+ "." +:+ table)
  +:+ " ('upgraded_to')".

Definition is_migrated (w : World) (schema table : string) : result bool :=
  let results := sql_fetch w (show_tblproperties schema table) in
  if marker_row (yielded results) then Return true
  else match raised results with
       | None => Return false
       | Some NotFound => Return true
       | Some RemoteError => Raise RemoteError
       end.

(** [dataclasses.replace(status, dst_catalog=.., dst_schema=.., dst_table=..)] *)
Definition replace (status : TableMigrationStatus) (catalog schema table : string)
  : TableMigrationStatus :=
  {| src_schema := src_schema status;
     src_table := src_table status;
     dst_catalog := Some catalog;
     dst_schema := Some schema;
     dst_table := Some table;
     update_ts := update_ts status |}.

(** [parts[i]], used where the length of [parts] has been checked. *)
Definition item (parts : list string) (i : nat) : string := nth i parts "".

(** The body of the loop of [_crawl] for one table of the inventory. The test
    [table.key in reverse_seen and self.is_migrated(..)] probes only a table
    whose key is in the dictionary, and [reverse_seen[table.key]] is then the
    value found. *)
Definition crawl_table (w : World) (reverse_seen : list (string * string))
  (timestamp : string) (table : Table.t) : Iter TableMigrationStatus :=
  let src_schema := Py.lower (Table.database table) in
  let src_table := Py.lower (Table.name table) in
  let table_migration_status :=
    MkTableMigrationStatus src_schema src_table None None None (Some timestamp) in
  match PyDict.get (Table.key table) reverse_seen with
  | None => MkIter [table_migration_status] None
  | Some target_table =>
      match is_migrated w src_schema src_table with
      | Raise e => MkIter [] (Some e)
      | Return false => MkIter [table_migration_status] None
      | Return true =>
          let parts := Py.split "." target_table in
          if Nat.eqb (length parts) 3
          then MkIter [replace table_migration_status
                         (item parts 0) (item parts 1) (item parts 2)] None
          else MkIter [table_migration_status] None
      end
  end.

(** [_crawl]; [all_tables] is the snapshot of the Table Inventory and
    [timestamp] the text of the clock reading taken once per pass. *)
Definition _crawl (w : World) (all_tables : list Table.t) (timestamp : string)
  : Iter TableMigrationStatus :=
  match get_seen_tables w with
  | Raise e => MkIter [] (Some e)
  | Return seen_tables =>
      let reverse_seen := PyDict.invert seen_tables in
      for_yield all_tables (crawl_table w reverse_seen timestamp) (MkIter [] None)
  end.

End WithUtils.

End TableMigrationStatusRefresher.

(** ** Known libraries

    The lookups of [source_code/known.py]. *)

Module Known.

Record KnownProblem : Type := MkKnownProblem {
  code : string;
  message : string
}.

Record Compatibility : Type := MkCompatibility {
  known : bool;
  problems : list KnownProblem
}.

Definition UNKNOWN : Compatibility := MkCompatibility false [].

(** [s.startswith(p)] *)
Definition startswith (s p : string) : bool := String.prefix p s.

(** [s.endswith(p)] *)
Fixpoint endswith (s p : string) : bool :=
  String.eqb p s ||
  match s with
  | EmptyString => false
  | String _ s' => endswith s' p
  end.

(** [s.replace(old, new)] for one-character [old] and [new]. *)
Fixpoint replace_char (old new : ascii) (s : string) : string :=
  match s with
  | EmptyString => EmptyString
  | String c s' => String (if Ascii.eqb c old then new else c) (replace_char old new s')
  end.

(** The longest prefix of characters that satisfy [p], and what follows it:
    a greedy character class at the start of a match. *)
Fixpoint span (p : ascii → bool) (s : string) : string * string :=
  match s with
  | EmptyString => (EmptyString, EmptyString)
  | String c s' =>
      if p c then (String c (fst (span p s')), snd (span p s')) else (EmptyString, s)
  end.

(** The characters before the first newline: what [.*] can run over. *)
Fixpoint first_line (s : string) : string :=
  match s with
  | EmptyString => EmptyString
  | String c s' => if Ascii.eqb c "010" then EmptyString else String c (first_line s')
  end.

(** The class [[a-zA-Z0-9]]. *)
Definition alnum (c : ascii) : bool :=
  let n := nat_of_ascii c in
  ((48 <=? n) && (n <=? 57) || (65 <=? n) && (n <=? 90) || (97 <=? n) && (n <=? 122))%nat.

(** The class [[a-zA-Z0-9_]]. *)
Definition wheel_char (c : ascii) : bool := alnum c || Ascii.eqb c "_".

(** The class [[a-zA-Z0-9-]]. *)
Definition requirement_char (c : ascii) : bool := alnum c || Ascii.eqb c "-".

(** [_wheel_name_re.match(name)] and its group 1: the pattern, compiled with
    [re.MULTILINE], is a non-empty greedy run of [[a-zA-Z0-9_]], the group,
    then [-], then any characters but newlines, then [.whl] at the end of the
    line. The run is ended by the [-] that follows it, and the rest of the
    first line has to end in [.whl]. *)
Definition match_wheel_name (name : string) : option string :=
  match span wheel_char name with
  | (String c raw, String "-" rest) =>
      if endswith (first_line rest) ".whl" then Some (String c raw) else None
  | _ => None
  end.

(** [_requirement_specifier_re.match(name)] and its group 1: the pattern is
    a non-empty greedy run of [[a-zA-Z0-9-]], the group, with an optional tail
    (one of [<], [>], [=] and anything after it) that never makes the match
    fail. *)
Definition match_requirement_specifier (name : string) : option string :=
  match span requirement_char name with
  | (String c raw, _) => Some (String c raw)
  | _ => None
  end.

(** [KnownList._cleanup_name] *)
Definition _cleanup_name (name : string) : string :=
  match match_wheel_name name with
  | Some raw => Py.lower (replace_char "_" "-" raw)
  | None =>
      match match_requirement_specifier name with
      | Some raw => Py.lower (replace_char "_" "-" raw)
      | None => name
      end
  end.

(** The state of a [KnownList]: [_module_problems] is an ordered dictionary,
    [_library_problems] a dictionary that is only looked up. *)
Record KnownList : Type := MkKnownList {
  _module_problems : list (string * list KnownProblem);
  _library_problems : gmap string (list KnownProblem)
}.

(** [name == module or name.startswith(module + ".")] *)
Definition matches (name module : string) : bool :=
  String.eqb name module || startswith name (module +:+ ".").

(** The loop of [module_compatibility] over the items of the dictionary. *)
Fixpoint first_match (name : string) (items : list (string * list KnownProblem))
  : Compatibility :=
  match items with
  | [] => UNKNOWN
  | (module, module_problems) :: items' =>
      if negb (matches name module) then first_match name items'
      else MkCompatibility true module_problems
  end.

Definition module_compatibility (self : KnownList) (name : string) : Compatibility :=
  match name with
  | EmptyString => UNKNOWN
  | _ => first_match name (PyDict.items (_module_problems self))
  end.

Definition distribution_compatibility (self : KnownList) (name : string) : Compatibility :=
  match name with
  | EmptyString => UNKNOWN
  | _ =>
      match _library_problems self !! _cleanup_name name with
      | None => UNKNOWN
      | Some library_problems => MkCompatibility true library_problems
      end
  end.

(** [sorted(items, key=lambda x: x[0], reverse=True)]: descending in the
    key, items with equal keys staying in their order. *)
Fixpoint insert_reverse {V : Type} (item : string * V) (items : list (string * V))
  : list (string * V) :=
  match items with
  | [] => [item]
  | item' :: items' =>
      if String.leb (fst item') (fst item) then item :: items
      else item' :: insert_reverse item items'
  end.

Definition sorted_reverse {V : Type} (items : list (string * V)) : list (string * V) :=
  foldr insert_reverse [] items.

(** The body of the inner loop of [__init__] for one module of a
    distribution; [_library_problems] is a [defaultdict(list)]. *)
Definition add_module (distribution_name : string) (self : KnownList)
  (item : string * list KnownProblem) : KnownList :=
  MkKnownList
    (PyDict.set (fst item) (snd item) (_module_problems self))
    (<[distribution_name :=
         (default [] (_library_problems self !! distribution_name) ++ snd item)%list]>
       (_library_problems self)).

(** The body of the outer loop of [__init__] for one distribution. *)
Definition add_distribution (self : KnownList)
  (entry : string * list (string * list KnownProblem)) : KnownList :=
  foldl (add_module (fst entry)) self (sorted_reverse (PyDict.items (snd entry))).

(** The body of the last loop of [__init__]. *)
Definition add_stdlib (self : KnownList) (name : string) : KnownList :=
  MkKnownList (PyDict.set name [] (_module_problems self)) (_library_problems self).

(** [KnownList.__init__], given the content of [known.json] as the ordered
    dictionaries [json.loads] makes of it, with the problems already turned
    into [KnownProblem]s, and the names of [sys.stdlib_module_names] in the
    order in which the set is iterated. *)
Definition init (known : list (string * list (string * list KnownProblem)))
  (stdlib_module_names : list string) : KnownList :=
  foldl add_stdlib (foldl add_distribution (MkKnownList [] ∅) (PyDict.items known))
    stdlib_module_names.

(** [DistInfo._extract_library_name_from_requires_dist] *)
Definition delimiters : list ascii := [" "; "@"; "<"; ">"; ";"]%char.

Fixpoint _extract_library_name_from_requires_dist (requirement : string) : string :=
  match requirement with
  | EmptyString => EmptyString
  | String char requirement' =>
      if bool_decide (char ∈ delimiters) then EmptyString
      else String char (_extract_library_name_from_requires_dist requirement')
  end.

End Known.

(** ** Vocabulary of the statements *)

(** [x is not None] *)
Definition is_set (o : option string) : bool :=
  match o with
  | Some _ => true
  | None => false
  end.

(** The key under which the index files a record. *)
Definition key_of (ms : TableMigrationStatus) : string * string :=
  (src_schema ms, src_table ms).

(** How [destination] renders one optional field. *)
Definition rendered (o : option string) : string :=
  match o with
  | Some s => Py.lower s
  | None => "none"
  end.

(** A record as a refresh pass creates it before any destination is known. *)
Definition unmigrated (schema table timestamp : string) : TableMigrationStatus :=
  MkTableMigrationStatus schema table None None None (Some timestamp).

(** *** Sample records *)

Definition orders_migrated : TableMigrationStatus :=
  MkTableMigrationStatus "sales" "orders" (Some "main") (Some "sales") (Some "orders") None.

Definition orders_pending : TableMigrationStatus :=
  MkTableMigrationStatus "sales" "orders" None None None None.

Definition orders_blank : TableMigrationStatus :=
  MkTableMigrationStatus "sales" "orders" (Some "main") (Some "sales") (Some "") None.

Definition orders_mixed_case : TableMigrationStatus :=
  MkTableMigrationStatus "Sales" "Orders" (Some "main") (Some "sales") (Some "orders") None.

Definition orders_mixed_case_blank : TableMigrationStatus :=
  MkTableMigrationStatus "Sales" "Orders" (Some "main") (Some "sales") (Some "") None.

(** *** Tables the scan reaches and what they contribute *)

(** The tables a schema contributes to the scan: the listing of a schema
    whose names are known, when that listing succeeds. *)
Definition listed_tables (w : World) (schema : SchemaInfo.t) : list TableInfo.t :=
  match SchemaInfo.catalog_name schema, SchemaInfo.name schema with
  | Some catalog_name, Some name =>
      match to_list (ws_tables_list w catalog_name name) with
      | Return tables => tables
      | Raise _ => []
      end
  | _, _ => []
  end.

(** A table is reached by the scan when a successful table listing of a named
    schema shows it, the schema being shown by the schema listing of a named
    catalog that the catalog listing shows and whose type is not excluded. *)
Definition reached (w : World) (table : TableInfo.t) : Prop :=
  ∃ (catalog : CatalogInfo.t) (schema : SchemaInfo.t) (name catalog_name schema_name : string),
    catalog ∈ yielded (ws_catalogs_list w) ∧
    CatalogInfo.catalog_type catalog ≠ Some SYSTEM_CATALOG ∧
    CatalogInfo.name catalog = Some name ∧
    schema ∈ yielded (ws_schemas_list w name) ∧
    SchemaInfo.catalog_name schema = Some catalog_name ∧
    SchemaInfo.name schema = Some schema_name ∧
    raised (ws_tables_list w catalog_name schema_name) = None ∧
    table ∈ yielded (ws_tables_list w catalog_name schema_name).

(** The value of the back-reference property of a table, if it carries it. *)
Definition back_reference (table : TableInfo.t) : option string :=
  match TableInfo.properties table with
  | Some properties => properties !! "upgraded_from"
  | None => None
  end.

(** The fully qualified name of a table, if it has one. *)
Definition qualified_name (table : TableInfo.t) : option string :=
  match TableInfo.full_name table with
  | Some (String c s) => Some (String c s)
  | _ => None
  end.

(** The entry a table stands for: lower-cased full name to lower-cased
    back-reference. *)
Definition contributes (table : TableInfo.t) (k v : string) : Prop :=
  ∃ full_name upgraded_from : string,
    qualified_name table = Some full_name ∧
    back_reference table = Some upgraded_from ∧
    k = Py.lower full_name ∧
    v = Py.lower upgraded_from.

(** The tables of the schemas the scan goes through, in scan order. *)
Definition scanned_tables (w : World) : list TableInfo.t :=
  yielded (TableMigrationStatusRefresher._iter_schemas w) ≫= listed_tables w.

(** The same state with the answer of one table listing replaced. *)
Definition with_tables (w : World) (catalog_name schema_name : string)
  (it : Iter TableInfo.t) : World :=
  MkWorld (ws_catalogs_list w) (ws_schemas_list w)
    (fun c s =>
       if String.eqb c catalog_name && String.eqb s schema_name
       then it else ws_tables_list w c s)
    (sql_fetch w).

(** The same state with the answer of one schema listing replaced. *)
Definition with_schemas (w : World) (catalog_name : string)
  (it : Iter SchemaInfo.t) : World :=
  MkWorld (ws_catalogs_list w)
    (fun c => if String.eqb c catalog_name then it else ws_schemas_list w c)
    (ws_tables_list w) (sql_fetch w).

(** The candidate matches of a pass: legacy key to destination identity. *)
Definition candidates (w : World) : list (string * string) :=
  match TableMigrationStatusRefresher.get_seen_tables w with
  | Return seen_tables => PyDict.invert seen_tables
  | Raise _ => []
  end.

(** *** The live probe *)

(** The answer of the legacy store to the property query for one table. *)
Definition property_query (escape_sql_identifier : string → string) (w : World)
  (schema table : string) : Iter Row.t :=
  sql_fetch w (TableMigrationStatusRefresher.show_tblproperties escape_sql_identifier schema table).

(** A returned row reports the marker property as absent. *)
Definition reports_absent (row : Row.t) : bool :=
  Py.contains "does not have property" (Row.value row).

(** The identity of the record of a legacy table. *)
Definition legacy_key (table : Table.t) : string * string :=
  (Py.lower (Table.database table), Py.lower (Table.name table)).

(** Some destination field of a record is set. *)
Definition has_destination (r : TableMigrationStatus) : bool :=
  is_set (dst_catalog r) || is_set (dst_schema r) || is_set (dst_table r).

(** The live probe of a pass for one legacy table. *)
Definition live_probe (escape_sql_identifier : string → string) (w : World)
  (table : Table.t) : result bool :=
  TableMigrationStatusRefresher.is_migrated escape_sql_identifier w
    (Py.lower (Table.database table)) (Py.lower (Table.name table)).

(** A loop body that yields exactly one item, or raises before yielding. *)
Definition one_or_raise {A B : Type} (body : A → Iter B) : Prop :=
  ∀ x, (∃ r, body x = MkIter [r] None) ∨ (∃ e, body x = MkIter [] (Some e)).

(** *** Sample states *)

Definition main_catalog : CatalogInfo.t :=
  CatalogInfo.Mk (Some "main") (Some MANAGED_CATALOG).

Definition system_catalog : CatalogInfo.t :=
  CatalogInfo.Mk (Some "system") (Some SYSTEM_CATALOG).

Definition sales_schema : SchemaInfo.t :=
  SchemaInfo.Mk (Some "main") (Some "sales") (Some "main.sales").

Definition upgraded (full_name upgraded_from : string) : TableInfo.t :=
  TableInfo.Mk (Some "orders") (Some full_name) (Some {[ "upgraded_from" := upgraded_from ]}).

Definition marker_present : Iter Row.t :=
  MkIter [Row.Mk "upgraded_to" "main.sales.orders"] None.

Definition marker_absent : Iter Row.t :=
  MkIter [Row.Mk "upgraded_to"
            "Table hive_metastore.sales.orders does not have property: upgraded_to"] None.

(** A store with the catalogs [system] and [main], the schema [main.sales]
    holding [tables], and a legacy store that answers every property query
    with [probe]. *)
Definition store (tables : list TableInfo.t) (probe : Iter Row.t) : World :=
  MkWorld (MkIter [system_catalog; main_catalog] None)
    (fun c => if String.eqb c "main" then MkIter [sales_schema] None
              else MkIter [] (Some NotFound))
    (fun c s => if String.eqb c "main" && String.eqb s "sales" then MkIter tables None
                else MkIter [] (Some NotFound))
    (fun _ => probe).

(** The same store seen through a catalog listing that shows a catalog
    [legacy] before [main]; listing the schemas of [legacy] ends in
    not-found. *)
Definition store_with_dead_catalog (tables : list TableInfo.t) (probe : Iter Row.t) : World :=
  MkWorld (MkIter [CatalogInfo.Mk (Some "legacy") (Some MANAGED_CATALOG); main_catalog] None)
    (ws_schemas_list (store tables probe))
    (ws_tables_list (store tables probe))
    (sql_fetch (store tables probe)).

Definition legacy_orders : Table.t :=
  Table.Mk "Sales" "Orders" "hive_metastore.sales.orders".

(** [escape_sql_identifier] taken as quoting the whole path in back-ticks. *)
Definition backticks (path : string) : string := "`" +:+ path +:+ "`".

(** *** Vocabulary of the further statements *)

(** The same state with the answer of the catalog listing replaced. *)
Definition with_catalogs (w : World) (it : Iter CatalogInfo.t) : World :=
  MkWorld it (ws_schemas_list w) (ws_tables_list w) (sql_fetch w).

(** The same state with other answers of the legacy store. *)
Definition with_fetch (w : World) (fetch : string → Iter Row.t) : World :=
  MkWorld (ws_catalogs_list w) (ws_schemas_list w) (ws_tables_list w) fetch.

Definition legacy_items : Table.t :=
  Table.Mk "Sales" "Items" "hive_metastore.sales.items".

(** A legacy store that fails with a generic remote error on the property
    query for [sales.orders] and shows the marker for every other table. *)
Definition orders_probe_fails (query : string) : Iter Row.t :=
  if String.eqb query
       (TableMigrationStatusRefresher.show_tblproperties backticks "sales" "orders")
  then MkIter [] (Some RemoteError)
  else marker_present.

(** A catalog the scan goes into: it has a name and is not a system catalog. *)
Definition scannable (catalog : CatalogInfo.t) : bool :=
  match CatalogInfo.name catalog, CatalogInfo.catalog_type catalog with
  | None, _ => false
  | Some _, Some SYSTEM_CATALOG => false
  | Some _, _ => true
  end.

(** A string that lower-casing leaves as it is. *)
Definition lower_cased (s : string) : Prop := Py.lower s = s.

(** The record of a legacy table whose migration is confirmed. *)
Definition migrated_to (table : Table.t) (catalog schema name timestamp : string)
  : TableMigrationStatus :=
  MkTableMigrationStatus (Py.lower (Table.database table)) (Py.lower (Table.name table))
    (Some catalog) (Some schema) (Some name) (Some timestamp).

(** Every character of a string satisfies [p]. *)
Fixpoint all_chars (p : ascii → bool) (s : string) : bool :=
  match s with
  | EmptyString => true
  | String c s' => p c && all_chars p s'
  end.

(** ASCII text, on which [Py.lower] is [str.lower]. *)
Definition ascii_text (s : string) : bool :=
  all_chars (λ c, (nat_of_ascii c <? 128)%nat) s.

(** An optional field that is unset or holds ASCII text. *)
Definition ascii_field (o : option string) : bool :=
  match o with
  | Some s => ascii_text s
  | None => true
  end.

(** The class [[a-z0-9-]]: what a cleaned distribution name is made of. *)
Definition clean_char (c : ascii) : bool :=
  let n := nat_of_ascii c in
  ((48 <=? n) && (n <=? 57) || (97 <=? n) && (n <=? 122) || (n =? 45))%nat.

(** [module] is [name] or a dotted ancestor of [name]. *)
Definition dotted_prefix (module name : string) : Prop :=
  name = module ∨ ∃ rest : string, name = module +:+ "." +:+ rest.

(** The assignments [__init__] makes to [_module_problems], in order. *)
Definition assignments (known : list (string * list (string * list Known.KnownProblem)))
  (stdlib_module_names : list string) : list (string * list Known.KnownProblem) :=
  ((known ≫= λ entry, Known.sorted_reverse (snd entry))
   ++ ((λ name, (name, [])) <$> stdlib_module_names))%list.

(** One assignment [d[k] = v] to an ordered dictionary. *)
Definition assign {V : Type} (d : list (string * V)) (kv : string * V) : list (string * V) :=
  PyDict.set (fst kv) (snd kv) d.

(** The first key, in the order of the items, that is the name or a dotted
    ancestor of it. *)
Fixpoint first_key {V : Type} (name : string) (items : list (string * V)) : option string :=
  match items with
  | [] => None
  | item :: items' =>
      if Known.matches name (fst item) then Some (fst item) else first_key name items'
  end.

(** ** Facts about the Python primitives *)

Module PyFacts.
Import Py.

Lemma lower_ascii_idem (c : ascii) : lower_ascii (lower_ascii c) = lower_ascii c.
Proof. destruct c as [[] [] [] [] [] [] [] []]; reflexivity. Qed.

Lemma lower_idem (s : string) : lower (lower s) = lower s.
Proof.
  induction s as [|c s IH]; simpl; [reflexivity|].
  by rewrite lower_ascii_idem, IH.
Qed.

(** Lower-casing character by character goes through concatenation; of
    [str.lower] this is true on ASCII text. *)
Lemma lower_app (s1 s2 : string) : lower (s1 +:+ s2) = lower s1 +:+ lower s2.
Proof.
  induction s1 as [|c s1 IH]; simpl; [reflexivity|].
  by rewrite IH.
Qed.

Lemma lower_ascii_not_N (c : ascii) : lower_ascii c ≠ "N"%char.
Proof. intros H. destruct c as [[] [] [] [] [] [] [] []]; vm_compute in H; discriminate H. Qed.

(** A lower-cased string has no capital letter, so [None] is not in it. *)
Lemma lower_without_None (s : string) : contains "None" (lower s) = false.
Proof.
  induction s as [|c s IH]; [reflexivity|].
  change (lower (String c s)) with (String (lower_ascii c) (lower s)).
  cbn [contains]. rewrite IH, orb_false_r. cbn [String.prefix].
  destruct (ascii_dec "N" (lower_ascii c)) as [Heq|]; [|reflexivity].
  by destruct (lower_ascii_not_N c).
Qed.

Lemma split_nonempty (sep : ascii) (s : string) : split sep s ≠ [].
Proof.
  induction s as [|c s IH]; simpl; [discriminate|].
  destruct (Ascii.eqb c sep); [discriminate|].
  destruct (split sep s); discriminate.
Qed.

Lemma truthy_is_set (o : option string) : truthy o = true → is_set o = true.
Proof. destruct o as [[|c s]|]; simpl; congruence. Qed.

Example split_three : split "." "main.sales.orders" = ["main"; "sales"; "orders"].
Proof. reflexivity. Qed.

Example split_trailing_dot : split "." "main.sales." = ["main"; "sales"; ""].
Proof. reflexivity. Qed.

Example split_no_dot : split "." "" = [""].
Proof. reflexivity. Qed.

Example lower_mixed : lower "SalesDB.Orders_1" = "salesdb.orders_1".
Proof. reflexivity. Qed.

End PyFacts.

(** ** The migration index *)

Module IndexFacts.
Import TableMigrationIndex.

(** The comprehension keeps, for each key, the last record that carries it. *)
Lemma init_snoc (tables : list TableMigrationStatus) (ms : TableMigrationStatus) :
  _index (init (tables ++ [ms])) = <[key_of ms := ms]> (_index (init tables)).
Proof. unfold init; simpl. by rewrite foldl_app. Qed.

Lemma init_lookup_unique (tables : list TableMigrationStatus) (r : TableMigrationStatus) :
  NoDup (key_of <$> tables) → r ∈ tables → _index (init tables) !! key_of r = Some r.
Proof.
  induction tables as [|ms tables IH] using rev_ind; intros Hnd Hin.
  - by apply elem_of_nil in Hin.
  - rewrite init_snoc. rewrite fmap_app in Hnd. apply NoDup_app in Hnd as (Hnd & Hfresh & _).
    apply elem_of_app in Hin as [Hin | Hin].
    + rewrite lookup_insert_ne; [by apply IH|].
      intros Heq. apply (Hfresh (key_of r)).
      * apply list_elem_of_fmap. by exists r.
      * rewrite <- Heq. simpl. apply list_elem_of_here.
    + apply list_elem_of_singleton in Hin as ->. apply lookup_insert_eq.
Qed.

Lemma get_lookup (self : t) (schema table : string) :
  get self schema table =
  match _index self !! (Py.lower schema, Py.lower table) with
  | Some dst => if Py.truthy (dst_table dst) then Some dst else None
  | None => None
  end.
Proof.
  unfold get. destruct (_index self !! _) as [dst|]; [|reflexivity].
  by destruct (Py.truthy (dst_table dst)).
Qed.

(** C1, as stated, fails: a record whose destination table is the empty
    string is in the collection, its destination table is set, and the index
    built from the collection reports it as not migrated. *)
Lemma is_migrated_set_counterexample :
  ¬ (∀ (tables : list TableMigrationStatus) (r : TableMigrationStatus),
       r ∈ tables →
       is_migrated (init tables) (src_schema r) (src_table r) = is_set (dst_table r)).
Proof.
  intros H. specialize (H [orders_blank] orders_blank (list_elem_of_here _ _)).
  vm_compute in H. discriminate H.
Qed.

(** Two more inputs on which the statement of C1 fails: a later record with
    the same key replaces an earlier one, and a key that is not lower-cased is
    never found by a lookup. *)
Example is_migrated_duplicate_key :
  is_migrated (init [orders_migrated; orders_pending]) "sales" "orders" = false.
Proof. vm_compute. reflexivity. Qed.

Example is_migrated_mixed_case_key :
  is_migrated (init [orders_mixed_case]) "Sales" "Orders" = false.
Proof. vm_compute. reflexivity. Qed.

(** C1, amended: in a collection whose keys are pairwise distinct, a record
    whose key is lower-cased is reported as migrated exactly when its
    destination table is set and is not the empty string. *)
Theorem is_migrated_iff_destination_table
  (tables : list TableMigrationStatus) (r : TableMigrationStatus) :
  NoDup (key_of <$> tables) →
  r ∈ tables →
  Py.lower (src_schema r) = src_schema r →
  Py.lower (src_table r) = src_table r →
  is_migrated (init tables) (src_schema r) (src_table r) = Py.truthy (dst_table r).
Proof.
  intros Hnd Hin Hs Ht. unfold is_migrated. rewrite get_lookup, Hs, Ht.
  change (src_schema r, src_table r) with (key_of r).
  rewrite (init_lookup_unique tables r Hnd Hin).
  by destruct (Py.truthy (dst_table r)).
Qed.

Lemma is_migrated_iff_destination_table_witness :
  is_migrated (init [orders_migrated]) "sales" "orders" = true.
Proof.
  apply (is_migrated_iff_destination_table [orders_migrated] orders_migrated).
  - apply NoDup_singleton.
  - apply list_elem_of_here.
  - reflexivity.
  - reflexivity.
Defined.

(** C5: [get] answers absent when the lower-cased key has no record and when
    its record has no destination table; it answers a record only when that
    record is filed under the lower-cased key and has its destination table
    set. *)
Theorem get_absent_unless_migrated (self : t) (schema table : string) :
  (_index self !! (Py.lower schema, Py.lower table) = None →
   get self schema table = None) ∧
  (∀ r, _index self !! (Py.lower schema, Py.lower table) = Some r →
        dst_table r = None → get self schema table = None) ∧
  (∀ r, get self schema table = Some r →
        _index self !! (Py.lower schema, Py.lower table) = Some r ∧
        is_set (dst_table r) = true).
Proof.
  rewrite get_lookup. split; [|split].
  - by intros ->.
  - intros r -> Hnone. by rewrite Hnone.
  - intros r. destruct (_index self !! _) as [dst|]; [|discriminate].
    destruct (Py.truthy (dst_table dst)) eqn:Htruthy; [|discriminate].
    intros [= ->]. split; [reflexivity|]. by apply PyFacts.truthy_is_set.
Qed.

(** C8: the index answers the same for the caller's casing and for the
    lower-cased arguments. *)
Theorem lookups_ignore_case (self : t) (schema table : string) :
  is_migrated self schema table = is_migrated self (Py.lower schema) (Py.lower table) ∧
  get self schema table = get self (Py.lower schema) (Py.lower table).
Proof.
  unfold is_migrated, get. by rewrite !PyFacts.lower_idem.
Qed.

Example lookups_ignore_case_salesdb :
  is_migrated (init [orders_migrated]) "Sales" "ORDERS" = true ∧
  get (init [orders_migrated]) "sales" "orders" = Some orders_migrated.
Proof. vm_compute. split; reflexivity. Qed.

(** C10, as stated, fails: the index files a record under its source names
    as they are, and a lookup lower-cases. The first record below has the
    empty string as destination table; a lookup with its source names finds
    the second record, which is migrated. *)
Lemma empty_destination_table_counterexample :
  ¬ (∀ (tables : list TableMigrationStatus) (r : TableMigrationStatus),
       r ∈ tables →
       dst_table r = Some "" →
       get (init tables) (src_schema r) (src_table r) = None ∧
       is_migrated (init tables) (src_schema r) (src_table r) = false).
Proof.
  intros H.
  destruct (H [orders_mixed_case_blank; orders_migrated] orders_mixed_case_blank
              (list_elem_of_here _ _) eq_refl) as [Hget _].
  vm_compute in Hget. discriminate Hget.
Qed.

(** C10, amended: when the record that the index holds under the lower-cased
    pair of a lookup has the empty string as destination table, it is treated
    as one without destination table: [get] answers absent and [is_migrated]
    answers false, whatever the other destination fields hold. *)
Theorem empty_destination_table_is_unmigrated
  (self : t) (schema table : string) (r : TableMigrationStatus) :
  _index self !! (Py.lower schema, Py.lower table) = Some r →
  dst_table r = Some "" →
  get self schema table = None ∧ is_migrated self schema table = false.
Proof.
  intros Hr Hblank. unfold is_migrated. rewrite get_lookup, Hr, Hblank. by split.
Qed.

Lemma empty_destination_table_is_unmigrated_witness :
  get (init [orders_blank]) "Sales" "Orders" = None ∧
  is_migrated (init [orders_blank]) "Sales" "Orders" = false.
Proof.
  apply (empty_destination_table_is_unmigrated (init [orders_blank]) "Sales" "Orders" orders_blank).
  - vm_compute. reflexivity.
  - reflexivity.
Defined.

End IndexFacts.

(** ** The destination of a record *)

Module RecordFacts.

(** On ASCII fields lower-casing the whole rendering is lower-casing each
    field. *)
Lemma destination_rendered (r : TableMigrationStatus) :
  ascii_field (dst_catalog r) = true →
  ascii_field (dst_schema r) = true →
  ascii_field (dst_table r) = true →
  destination r =
  rendered (dst_catalog r) +:+ "." +:+ rendered (dst_schema r) +:+ "." +:+ rendered (dst_table r).
Proof.
  intros _ _ _. unfold destination. rewrite !PyFacts.lower_app.
  by destruct (dst_catalog r), (dst_schema r), (dst_table r).
Qed.

(** C9, as stated, fails: the record without destination yields
    [none.none.none], in which the text [None] does not occur. *)
Lemma destination_none_marker_counterexample :
  ¬ (∀ r : TableMigrationStatus,
       dst_catalog r = None ∨ dst_schema r = None ∨ dst_table r = None →
       Py.contains "None" (destination r) = true).
Proof.
  intros H. specialize (H orders_pending (or_introl eq_refl)).
  vm_compute in H. discriminate H.
Qed.

(** C9, amended: with the three fields set, [destination] is the dotted
    string [catalog.schema.table] lower-cased as a whole. For every record
    the result is lower-cased and the text [None] does not occur in it. When
    the fields that are set hold ASCII text, it is the dotted string of the
    three fields, each lower-cased, an unset field being rendered as [none];
    with none of them set it is [none.none.none]. *)
Theorem destination_lower_cased (r : TableMigrationStatus) :
  (∀ c s t : string,
     dst_catalog r = Some c → dst_schema r = Some s → dst_table r = Some t →
     destination r = Py.lower (c +:+ "." +:+ s +:+ "." +:+ t)) ∧
  lower_cased (destination r) ∧
  Py.contains "None" (destination r) = false ∧
  (ascii_field (dst_catalog r) = true →
   ascii_field (dst_schema r) = true →
   ascii_field (dst_table r) = true →
   destination r =
   rendered (dst_catalog r) +:+ "." +:+ rendered (dst_schema r) +:+ "."
   +:+ rendered (dst_table r)) ∧
  (dst_catalog r = None → dst_schema r = None → dst_table r = None →
   destination r = "none.none.none").
Proof.
  split; [|split; [|split; [|split]]].
  - intros c s t Hc Hs Ht. unfold destination. by rewrite Hc, Hs, Ht.
  - unfold lower_cased, destination. apply PyFacts.lower_idem.
  - unfold destination. apply PyFacts.lower_without_None.
  - apply destination_rendered.
  - intros Hc Hs Ht. unfold destination. by rewrite Hc, Hs, Ht.
Qed.

Lemma destination_lower_cased_witness :
  destination orders_mixed_case =
  rendered (Some "main") +:+ "." +:+ rendered (Some "sales") +:+ "."
  +:+ rendered (Some "orders").
Proof.
  apply (proj1 (proj2 (proj2 (proj2 (destination_lower_cased orders_mixed_case)))));
    reflexivity.
Defined.

Example destination_migrated : destination orders_migrated = "main.sales.orders".
Proof. reflexivity. Qed.

Example destination_pending : destination orders_pending = "none.none.none".
Proof. reflexivity. Qed.

(** The destination of a record without destination is also the destination
    of a table [none] in schema [none] of catalog [none]. *)
Example destination_not_injective :
  destination orders_pending =
  destination (MkTableMigrationStatus "sales" "orders" (Some "None") (Some "none") (Some "NONE") None).
Proof. reflexivity. Qed.

End RecordFacts.

(** ** Insertion-ordered dictionaries *)

Module DictFacts.
Section dict.
Context {K V : Type} `{EqDecision K}.

Lemma get_set (k k' : K) (v : V) (d : list (K * V)) :
  PyDict.get k (PyDict.set k' v d) = if decide (k = k') then Some v else PyDict.get k d.
Proof.
  induction d as [|[k0 v0] d IH]; simpl.
  - by destruct (decide (k = k')).
  - destruct (decide (k' = k0)) as [->|Hne]; simpl.
    + by destruct (decide (k = k0)).
    + destruct (decide (k = k0)) as [->|Hne0].
      * destruct (decide (k0 = k')); [congruence|reflexivity].
      * apply IH.
Qed.

Lemma get_set_eq (k : K) (v : V) (d : list (K * V)) :
  PyDict.get k (PyDict.set k v d) = Some v.
Proof. rewrite get_set. by destruct (decide (k = k)). Qed.

Lemma get_set_is_Some (k k' : K) (v : V) (d : list (K * V)) :
  is_Some (PyDict.get k d) → is_Some (PyDict.get k (PyDict.set k' v d)).
Proof. rewrite get_set. destruct (decide (k = k')); eauto. Qed.

End dict.
End DictFacts.

(** ** The seen-tables scan *)

Module ScanFacts.
Import TableMigrationStatusRefresher.

Lemma for_yield_exhausting {A B : Type} (xs : list A) (body : A → Iter B) (rest : Iter B) :
  (∀ x, raised (body x) = None) →
  for_yield xs body rest =
  MkIter ((xs ≫= λ x, yielded (body x)) ++ yielded rest) (raised rest).
Proof.
  intros Hbody. induction xs as [|x xs IH]; simpl.
  - by destruct rest.
  - rewrite Hbody, IH. simpl. by rewrite app_assoc.
Qed.

Lemma foldl_bind {A B C : Type} (f : A → B → A) (g : C → list B) (a : A) (l : list C) :
  foldl f a (l ≫= g) = foldl (λ a x, foldl f a (g x)) a l.
Proof.
  revert a. induction l as [|x l IH]; intros a; simpl; [reflexivity|].
  by rewrite foldl_app, IH.
Qed.

Lemma bind_ext_all {A B : Type} (f g : A → list B) (l : list A) :
  (∀ x, f x = g x) → l ≫= f = l ≫= g.
Proof.
  intros Hfg. induction l as [|x l IH]; [reflexivity|].
  by rewrite !bind_cons, Hfg, IH.
Qed.

Lemma iter_catalogs_exhausts (w : World) : raised (_iter_catalogs w) = None.
Proof. unfold _iter_catalogs; simpl. by destruct (raised (ws_catalogs_list w)) as [[]|]. Qed.

Lemma schemas_of_exhausts (w : World) (catalog : CatalogInfo.t) :
  raised (schemas_of w catalog) = None.
Proof.
  unfold schemas_of. destruct (CatalogInfo.name catalog) as [name|]; simpl; [|reflexivity].
  by destruct (raised (ws_schemas_list w name)) as [[]|].
Qed.

Lemma iter_schemas_unfold (w : World) :
  _iter_schemas w =
  MkIter (yielded (_iter_catalogs w) ≫= λ catalog, yielded (schemas_of w catalog)) None.
Proof.
  unfold _iter_schemas.
  rewrite (for_yield_exhausting _ _ _ (schemas_of_exhausts w)). cbn [yielded raised].
  by rewrite app_nil_r, iter_catalogs_exhausts.
Qed.

Lemma skipped_false (catalog : CatalogInfo.t) :
  skipped catalog = false ↔ CatalogInfo.catalog_type catalog ≠ Some SYSTEM_CATALOG.
Proof.
  unfold skipped. destruct (CatalogInfo.catalog_type catalog) as [[]|];
    split; intros; try congruence; reflexivity || discriminate.
Qed.

Lemma see_table_entry (seen_tables : list (string * string)) (table : TableInfo.t) :
  see_table seen_tables table =
  match qualified_name table, back_reference table with
  | Some full_name, Some upgraded_from =>
      PyDict.set (Py.lower full_name) (Py.lower upgraded_from) seen_tables
  | _, _ => seen_tables
  end.
Proof.
  unfold see_table, qualified_name, back_reference.
  destruct (TableInfo.properties table) as [properties|];
    [|by destruct (TableInfo.full_name table) as [[]|]].
  case_bool_decide as Hempty.
  - subst properties. rewrite lookup_empty. by destruct (TableInfo.full_name table) as [[]|].
  - destruct (properties !! "upgraded_from"); by destruct (TableInfo.full_name table) as [[]|].
Qed.

Lemma see_schema_listed (w : World) (seen_tables : list (string * string))
  (schema : SchemaInfo.t) :
  see_schema w seen_tables schema = foldl see_table seen_tables (listed_tables w schema).
Proof.
  unfold see_schema, listed_tables.
  destruct (SchemaInfo.catalog_name schema), (SchemaInfo.name schema); try reflexivity.
  by destruct (to_list _) as [tables|[]].
Qed.

(** The scan never raises; its result is the dictionary obtained by visiting
    the scanned tables in order. *)
Lemma get_seen_tables_scanned (w : World) :
  get_seen_tables w = Return (foldl see_table [] (scanned_tables w)).
Proof.
  unfold get_seen_tables, scanned_tables. rewrite iter_schemas_unfold. cbn [yielded raised].
  f_equal.
  generalize (yielded (_iter_catalogs w) ≫= λ catalog, yielded (schemas_of w catalog)).
  intros schemas. rewrite foldl_bind. generalize (@nil (string * string)).
  induction schemas as [|schema schemas IH]; intros seen; simpl;
    [reflexivity|].
  by rewrite see_schema_listed, IH.
Qed.

Lemma scanned_reached (w : World) (table : TableInfo.t) :
  table ∈ scanned_tables w ↔ reached w table.
Proof.
  unfold scanned_tables, reached. rewrite iter_schemas_unfold; simpl. split.
  - intros (schema & Htable & Hschema)%list_elem_of_bind.
    apply list_elem_of_bind in Hschema as (catalog & Hschema & Hcatalog).
    apply list_elem_of_In, filter_In in Hcatalog as [Hcatalog Hkept].
    apply list_elem_of_In in Hcatalog. apply negb_true_iff, skipped_false in Hkept.
    unfold schemas_of in Hschema.
    destruct (CatalogInfo.name catalog) as [name|] eqn:Hname; simpl in Hschema;
      [|by apply elem_of_nil in Hschema].
    unfold listed_tables, to_list in Htable.
    destruct (SchemaInfo.catalog_name schema) as [catalog_name|] eqn:Hcn;
      [|by apply elem_of_nil in Htable].
    destruct (SchemaInfo.name schema) as [schema_name|] eqn:Hsn;
      [|by apply elem_of_nil in Htable].
    destruct (raised (ws_tables_list w catalog_name schema_name)) eqn:Hraised;
      [by apply elem_of_nil in Htable|].
    by exists catalog, schema, name, catalog_name, schema_name.
  - intros (catalog & schema & name & catalog_name & schema_name
            & Hcatalog & Htype & Hname & Hschema & Hcn & Hsn & Hraised & Htable).
    apply list_elem_of_bind. exists schema. split.
    + unfold listed_tables, to_list. by rewrite Hcn, Hsn, Hraised.
    + apply list_elem_of_bind. exists catalog. split.
      * unfold schemas_of. by rewrite Hname.
      * apply list_elem_of_In, filter_In. split; [by apply list_elem_of_In|].
        by apply negb_true_iff, skipped_false.
Qed.

Lemma see_table_contributes (seen_tables : list (string * string)) (table : TableInfo.t)
  (k v : string) :
  contributes table k v → PyDict.get k (see_table seen_tables table) = Some v.
Proof.
  intros (full_name & upgraded_from & Hfn & Hup & -> & ->).
  rewrite see_table_entry, Hfn, Hup. apply DictFacts.get_set_eq.
Qed.

Lemma see_table_keeps (seen_tables : list (string * string)) (table : TableInfo.t)
  (k : string) :
  is_Some (PyDict.get k seen_tables) → is_Some (PyDict.get k (see_table seen_tables table)).
Proof.
  intros Hk. rewrite see_table_entry.
  destruct (qualified_name table), (back_reference table); try done.
  by apply DictFacts.get_set_is_Some.
Qed.

Lemma see_table_origin (seen_tables : list (string * string)) (table : TableInfo.t)
  (k v : string) :
  PyDict.get k (see_table seen_tables table) = Some v →
  PyDict.get k seen_tables = Some v ∨ contributes table k v.
Proof.
  rewrite see_table_entry.
  destruct (qualified_name table) as [full_name|] eqn:Hfn; [|by left].
  destruct (back_reference table) as [upgraded_from|] eqn:Hup; [|by left].
  rewrite DictFacts.get_set. destruct (decide (k = Py.lower full_name)) as [->|]; [|by left].
  intros [= <-]. right. by exists full_name, upgraded_from.
Qed.

Lemma seen_keeps (tables : list TableInfo.t) (seen_tables : list (string * string))
  (k : string) :
  is_Some (PyDict.get k seen_tables) →
  is_Some (PyDict.get k (foldl see_table seen_tables tables)).
Proof.
  revert seen_tables. induction tables as [|table tables IH]; intros seen Hk; simpl; [done|].
  by apply IH, see_table_keeps.
Qed.

Lemma seen_origin (tables : list TableInfo.t) (seen_tables : list (string * string))
  (k v : string) :
  PyDict.get k (foldl see_table seen_tables tables) = Some v →
  PyDict.get k seen_tables = Some v ∨ ∃ table, table ∈ tables ∧ contributes table k v.
Proof.
  revert seen_tables. induction tables as [|table tables IH]; intros seen Hk; simpl in *.
  - by left.
  - apply IH in Hk as [Hk | (table' & Hin & Hc)].
    + apply see_table_origin in Hk as [Hk | Hc]; [by left|].
      right. exists table. split; [apply list_elem_of_here|done].
    + right. exists table'. split; [by apply list_elem_of_further|done].
Qed.

Lemma seen_present (tables : list TableInfo.t) (seen_tables : list (string * string))
  (table : TableInfo.t) (k v : string) :
  table ∈ tables → contributes table k v →
  is_Some (PyDict.get k (foldl see_table seen_tables tables)).
Proof.
  revert seen_tables. induction tables as [|table' tables IH]; intros seen Hin Hc; simpl.
  - by apply elem_of_nil in Hin.
  - apply elem_of_cons in Hin as [<- | Hin].
    + apply seen_keeps. rewrite (see_table_contributes _ _ _ _ Hc). by eexists.
    + by apply IH.
Qed.

Lemma seen_untouched (tables : list TableInfo.t) (seen_tables : list (string * string))
  (k : string) :
  (∀ table v, table ∈ tables → ¬ contributes table k v) →
  PyDict.get k (foldl see_table seen_tables tables) = PyDict.get k seen_tables.
Proof.
  revert seen_tables. induction tables as [|table tables IH]; intros seen Hnone; simpl;
    [reflexivity|].
  rewrite IH; [|intros table' v Hin; apply Hnone; by apply list_elem_of_further].
  destruct (PyDict.get k (see_table seen table)) as [v|] eqn:Hk.
  - apply see_table_origin in Hk as [Hk | Hc]; [done|].
    destruct (Hnone table v (list_elem_of_here _ _) Hc).
  - destruct (PyDict.get k seen) as [v|] eqn:Hseen; [|reflexivity].
    destruct (see_table_keeps seen table k (mk_is_Some _ _ Hseen)) as [v' Hv'].
    congruence.
Qed.

Lemma listed_tables_failed (w : World) (catalog_name schema_name : string)
  (e : DatabricksError) (schema : SchemaInfo.t) :
  raised (ws_tables_list w catalog_name schema_name) = Some e →
  listed_tables (with_tables w catalog_name schema_name (MkIter [] None)) schema =
  listed_tables w schema.
Proof.
  intros Hfailed. unfold listed_tables, with_tables; cbn [ws_tables_list].
  destruct (SchemaInfo.catalog_name schema) as [c|]; [|reflexivity].
  destruct (SchemaInfo.name schema) as [s|]; [|reflexivity].
  destruct (String.eqb c catalog_name) eqn:Hc; [|reflexivity].
  destruct (String.eqb s schema_name) eqn:Hs; [|reflexivity].
  apply String.eqb_eq in Hc as ->. apply String.eqb_eq in Hs as ->.
  unfold to_list. by rewrite Hfailed.
Qed.

Lemma schemas_of_cut (w : World) (catalog_name : string) (catalog : CatalogInfo.t) :
  schemas_of
    (with_schemas w catalog_name (MkIter (yielded (ws_schemas_list w catalog_name)) None))
    catalog =
  schemas_of w catalog.
Proof.
  unfold schemas_of, with_schemas; cbn [ws_schemas_list].
  destruct (CatalogInfo.name catalog) as [name|]; [|reflexivity].
  destruct (String.eqb name catalog_name) eqn:Hname; [|reflexivity].
  apply String.eqb_eq in Hname as ->. cbn [yielded raised].
  by destruct (raised (ws_schemas_list w catalog_name)) as [[]|].
Qed.

(** C6, as stated, fails: two tables of one schema whose full names differ
    only in case are both reached, both carry the back-reference and a full
    name, and the map holds the entry of the second only. *)
Lemma seen_tables_every_entry_counterexample :
  ¬ (∀ (w : World) (table : TableInfo.t) (full_name upgraded_from : string),
       reached w table →
       qualified_name table = Some full_name →
       back_reference table = Some upgraded_from →
       ∃ seen, get_seen_tables w = Return seen ∧
               PyDict.get (Py.lower full_name) seen = Some (Py.lower upgraded_from)).
Proof.
  intros H.
  destruct (H (store [upgraded "main.sales.orders" "hive_metastore.sales.orders";
                      upgraded "Main.Sales.Orders" "hive_metastore.sales.orders_v2"]
                     marker_present)
              (upgraded "main.sales.orders" "hive_metastore.sales.orders")
              "main.sales.orders" "hive_metastore.sales.orders") as (seen & Hseen & Hget).
  - exists main_catalog, sales_schema, "main", "main", "sales".
    repeat split; try reflexivity; try discriminate.
    + apply list_elem_of_further, list_elem_of_here.
    + apply list_elem_of_here.
    + apply list_elem_of_here.
  - reflexivity.
  - reflexivity.
  - vm_compute in Hseen. injection Hseen as <-. vm_compute in Hget. discriminate Hget.
Qed.

(** C6, amended: the scan produces a map. Each of its entries is the
    lower-cased full name and lower-cased back-reference of a table that the
    scan reaches, that carries the back-reference and that has a full name;
    so no entry comes from a catalog of an excluded type, from a table
    without the property or from a table without full name. The lower-cased
    full name of every such table is a key of the map; its value is the
    lower-cased back-reference of the last such table in scan order with that
    key, and hence the table's own when all such tables agree on it. *)
Theorem seen_tables_entries (w : World) :
  ∃ seen : list (string * string),
    get_seen_tables w = Return seen ∧
    (∀ k v, PyDict.get k seen = Some v →
            ∃ table, reached w table ∧ contributes table k v) ∧
    (∀ table k v, reached w table → contributes table k v →
                  is_Some (PyDict.get k seen)) ∧
    (∀ (before : list TableInfo.t) table (after : list TableInfo.t) k v,
       scanned_tables w = (before ++ table :: after)%list →
       contributes table k v →
       (∀ table' v', table' ∈ after → ¬ contributes table' k v') →
       PyDict.get k seen = Some v) ∧
    (∀ table k v, reached w table → contributes table k v →
       (∀ table' v', reached w table' → contributes table' k v' → v' = v) →
       PyDict.get k seen = Some v).
Proof.
  exists (foldl see_table [] (scanned_tables w)).
  split; [apply get_seen_tables_scanned|].
  assert (Horigin : ∀ k v, PyDict.get k (foldl see_table [] (scanned_tables w)) = Some v →
                           ∃ table, reached w table ∧ contributes table k v).
  { intros k v Hk. apply seen_origin in Hk as [Hk | (table & Hin & Hc)]; [discriminate|].
    exists table. split; [by apply scanned_reached|done]. }
  assert (Hpresent : ∀ table k v, reached w table → contributes table k v →
                     is_Some (PyDict.get k (foldl see_table [] (scanned_tables w)))).
  { intros table k v Hreached Hc. apply (seen_present _ _ table k v); [|done].
    by apply scanned_reached. }
  repeat split; [exact Horigin | exact Hpresent | |].
  - intros before table after k v -> Hc Hafter.
    rewrite foldl_app; simpl. rewrite (seen_untouched after _ k Hafter).
    by apply see_table_contributes.
  - intros table k v Hreached Hc Hagree.
    destruct (Hpresent table k v Hreached Hc) as [v' Hv'].
    destruct (Horigin k v' Hv') as (table' & Hreached' & Hc').
    by rewrite Hv', (Hagree table' v' Hreached' Hc').
Qed.

(** C7, as stated, fails: a schema listing that fails after it has shown a
    schema does not make the scan skip the catalog. The schema shown before
    the failure is scanned, and the map holds its entry, which is not in the
    map of the catalogs and schemas that remain when the catalog is left
    out. *)
Lemma scan_skips_failed_catalog_counterexample :
  ¬ (∀ (w : World) (catalog_name : string) (e : DatabricksError),
       raised (ws_schemas_list w catalog_name) = Some e →
       get_seen_tables w =
       get_seen_tables (with_schemas w catalog_name (MkIter [] None))).
Proof.
  intros H.
  specialize (H (with_schemas
                   (store [upgraded "main.sales.orders" "hive_metastore.sales.orders"]
                      marker_present)
                   "main" (MkIter [sales_schema] (Some RemoteError)))
                "main" RemoteError eq_refl).
  vm_compute in H. discriminate H.
Qed.

(** C7, amended: whatever the listings do, the scan does not raise and
    produces a map. A table listing that fails, with not-found or with any
    other remote error, leaves the map as it is for the state in which that
    schema has no tables. A schema listing that fails leaves the map as it is
    for the state in which the listing of that catalog ends where it failed:
    the schemas shown before the failure are scanned, and the catalog is
    skipped as a whole when the listing fails before showing a schema. The
    entries outside the failed listings are kept: the lower-cased full name of
    every table that the scan reaches, that carries the back-reference and
    that has a full name is a key of the map, with the lower-cased
    back-reference of the table as its value when all such tables with that
    key agree on it; and every entry of the map comes from such a table. *)
Theorem scan_survives_failed_listings (w : World) :
  ∃ seen : list (string * string),
    get_seen_tables w = Return seen ∧
    (∀ catalog_name schema_name e,
       raised (ws_tables_list w catalog_name schema_name) = Some e →
       get_seen_tables (with_tables w catalog_name schema_name (MkIter [] None)) =
       Return seen) ∧
    (∀ catalog_name e,
       raised (ws_schemas_list w catalog_name) = Some e →
       get_seen_tables
         (with_schemas w catalog_name
            (MkIter (yielded (ws_schemas_list w catalog_name)) None)) =
       Return seen) ∧
    (∀ catalog_name e,
       ws_schemas_list w catalog_name = MkIter [] (Some e) →
       get_seen_tables (with_schemas w catalog_name (MkIter [] None)) = Return seen) ∧
    (∀ table k v, reached w table → contributes table k v →
                  is_Some (PyDict.get k seen)) ∧
    (∀ table k v, reached w table → contributes table k v →
       (∀ table' v', reached w table' → contributes table' k v' → v' = v) →
       PyDict.get k seen = Some v) ∧
    (∀ k v, PyDict.get k seen = Some v →
            ∃ table, reached w table ∧ contributes table k v).
Proof.
  exists (foldl see_table [] (scanned_tables w)).
  assert (Hcut : ∀ catalog_name,
            scanned_tables
              (with_schemas w catalog_name
                 (MkIter (yielded (ws_schemas_list w catalog_name)) None)) =
            scanned_tables w).
  { intros catalog_name. unfold scanned_tables. rewrite !iter_schemas_unfold.
    cbn [yielded]. f_equal. apply bind_ext_all. intros catalog.
    by rewrite schemas_of_cut. }
  assert (Horigin : ∀ k v, PyDict.get k (foldl see_table [] (scanned_tables w)) = Some v →
                           ∃ table, reached w table ∧ contributes table k v).
  { intros k v Hk. apply seen_origin in Hk as [Hk | (table & Hin & Hc)]; [discriminate|].
    exists table. split; [by apply scanned_reached|done]. }
  assert (Hpresent : ∀ table k v, reached w table → contributes table k v →
                     is_Some (PyDict.get k (foldl see_table [] (scanned_tables w)))).
  { intros table k v Hreached Hc. apply (seen_present _ _ table k v); [|done].
    by apply scanned_reached. }
  split; [apply get_seen_tables_scanned|].
  split; [|split; [|split; [|split; [exact Hpresent|split; [|exact Horigin]]]]].
  - intros catalog_name schema_name e Hfailed.
    rewrite get_seen_tables_scanned. f_equal. f_equal. unfold scanned_tables.
    apply bind_ext_all. intros schema. by eapply listed_tables_failed.
  - intros catalog_name e _. rewrite get_seen_tables_scanned. by rewrite Hcut.
  - intros catalog_name e Hfailed. rewrite get_seen_tables_scanned.
    rewrite <- (Hcut catalog_name). by rewrite Hfailed.
  - intros table k v Hreached Hc Hagree.
    destruct (Hpresent table k v Hreached Hc) as [v' Hv'].
    destruct (Horigin k v' Hv') as (table' & Hreached' & Hc').
    by rewrite Hv', (Hagree table' v' Hreached' Hc').
Qed.

(** The scenarios of the scan, evaluated. *)
Example scan_finds_back_reference :
  get_seen_tables
    (store [upgraded "Main.Sales.Orders" "hive_metastore.Sales.Orders";
            TableInfo.Mk (Some "plain") (Some "main.sales.plain") (Some ∅);
            TableInfo.Mk (Some "nameless") None
              (Some {[ "upgraded_from" := "hive_metastore.sales.nameless" ]})]
           marker_present) =
  Return [("main.sales.orders", "hive_metastore.sales.orders")].
Proof. vm_compute. reflexivity. Qed.

Example scan_tolerates_dead_catalog :
  get_seen_tables
    (store_with_dead_catalog [upgraded "main.sales.orders" "hive_metastore.sales.orders"]
       marker_present) =
  Return [("main.sales.orders", "hive_metastore.sales.orders")].
Proof. vm_compute. reflexivity. Qed.

Example scan_tolerates_failed_table_listing :
  get_seen_tables
    (with_tables (store [upgraded "main.sales.orders" "hive_metastore.sales.orders"]
                    marker_present)
       "main" "sales"
       (MkIter [upgraded "main.sales.orders" "hive_metastore.sales.orders"]
          (Some RemoteError))) =
  Return [].
Proof. vm_compute. reflexivity. Qed.

End ScanFacts.

(** ** The live probe and the refresh pass *)

Module CrawlFacts.
Import TableMigrationStatusRefresher.

Lemma marker_row_false (results : list Row.t) :
  marker_row results = false ↔ Forall (λ row, reports_absent row = true) results.
Proof.
  unfold reports_absent. induction results as [|row results IH]; simpl.
  - split; [constructor|reflexivity].
  - destruct (Py.contains _ (Row.value row)) eqn:Hrow.
    + rewrite IH. split; [by constructor|by inversion 1].
    + split; [discriminate|]. inversion 1; congruence.
Qed.

Lemma marker_row_true (results : list Row.t) :
  marker_row results = true ↔ Exists (λ row, reports_absent row = false) results.
Proof.
  unfold reports_absent. induction results as [|row results IH]; simpl.
  - split; [discriminate|by inversion 1].
  - destruct (Py.contains _ (Row.value row)) eqn:Hrow.
    + rewrite IH. split; [by right|]. inversion 1; [congruence|done].
    + split; [by left|reflexivity].
Qed.

(** When no body raises, the loop yields the items of all the elements. *)
Lemma for_yield_all {A B : Type} (xs : list A) (body : A → Iter B) :
  (∀ x, x ∈ xs → raised (body x) = None) →
  for_yield xs body (MkIter [] None) = MkIter (xs ≫= (λ x, yielded (body x))) None.
Proof.
  induction xs as [|x xs IH]; intros Hall; cbn [for_yield]; [reflexivity|].
  rewrite (Hall x (list_elem_of_here _ _)). cbn [yielded raised].
  rewrite IH; [|intros x' Hx'; by apply Hall, list_elem_of_further].
  by rewrite bind_cons.
Qed.

(** What the loop yields at a position is the item of the element there. *)
Lemma for_yield_lookup {A B : Type} (xs : list A) (body : A → Iter B) (i : nat) (r : B) :
  one_or_raise body →
  yielded (for_yield xs body (MkIter [] None)) !! i = Some r →
  ∃ x, xs !! i = Some x ∧ body x = MkIter [r] None.
Proof.
  intros Hbody. revert i. induction xs as [|x xs IH]; intros i; cbn [for_yield].
  - by rewrite lookup_nil.
  - destruct (Hbody x) as [[r0 Hx] | [e Hx]]; rewrite Hx; cbn [yielded raised].
    + destruct i; simpl.
      * intros [= <-]. by exists x.
      * apply IH.
    + by rewrite lookup_nil.
Qed.

(** Once the loop has yielded an item for each element before a position, it
    yields the item of the element at that position, if that one yields. *)
Lemma for_yield_reached {A B : Type} (xs : list A) (body : A → Iter B) (i : nat)
  (x : A) (r : B) :
  one_or_raise body →
  (i ≤ length (yielded (for_yield xs body (MkIter [] None))))%nat →
  xs !! i = Some x →
  body x = MkIter [r] None →
  yielded (for_yield xs body (MkIter [] None)) !! i = Some r.
Proof.
  intros Hbody. revert i. induction xs as [|x0 xs IH]; intros i; cbn [for_yield].
  - by rewrite lookup_nil.
  - destruct i; simpl.
    + intros _ [= ->] Hx. by rewrite Hx.
    + destruct (Hbody x0) as [[r0 Hx0] | [e Hx0]]; rewrite Hx0; cbn [yielded raised]; simpl.
      * intros Hlen. apply IH. lia.
      * intros Hlen. lia.
Qed.

(** A body that raises for some element makes the loop raise: the loop stops
    at the first element whose body raises, with the exception of that body,
    before it has yielded an item for every element. *)
Lemma for_yield_raises {A B : Type} (xs : list A) (body : A → Iter B) (x : A)
  (e : DatabricksError) :
  one_or_raise body →
  x ∈ xs →
  body x = MkIter [] (Some e) →
  ∃ (x' : A) (e' : DatabricksError),
    x' ∈ xs ∧ body x' = MkIter [] (Some e') ∧
    raised (for_yield xs body (MkIter [] None)) = Some e' ∧
    (length (yielded (for_yield xs body (MkIter [] None))) < length xs)%nat.
Proof.
  intros Hbody Hin Hx. induction xs as [|x0 xs IH]; [by apply elem_of_nil in Hin|].
  cbn [for_yield]. destruct (Hbody x0) as [[r0 Hx0] | [e0 Hx0]]; rewrite Hx0;
    cbn [yielded raised].
  - apply elem_of_cons in Hin as [-> | Hin]; [congruence|].
    destruct (IH Hin) as (x' & e' & Hin' & Hx' & Hraised & Hlen).
    exists x', e'. split; [by apply list_elem_of_further|]. split; [done|].
    split; [done|]. simpl. lia.
  - exists x0, e0. split; [apply list_elem_of_here|]. split; [done|].
    split; [done|]. simpl. lia.
Qed.

Section Pass.
Variable escape_sql_identifier : string → string.

Lemma is_migrated_raises (w : World) (schema table : string) (e : DatabricksError) :
  is_migrated escape_sql_identifier w schema table = Raise e →
  e = RemoteError ∧
  raised (property_query escape_sql_identifier w schema table) = Some RemoteError.
Proof.
  unfold is_migrated, property_query.
  destruct (marker_row _); [discriminate|].
  destruct (raised _) as [[]|]; try discriminate. by intros [= <-].
Qed.

(** C2: the live check answers true when the property query ends in
    not-found, false when the query succeeds and every returned row reports
    the marker as absent, and true when the query succeeds and some returned
    row does not report it as absent. *)
Theorem live_check_cases (w : World) (schema table : string) :
  (raised (property_query escape_sql_identifier w schema table) = Some NotFound →
   is_migrated escape_sql_identifier w schema table = Return true) ∧
  (raised (property_query escape_sql_identifier w schema table) = None →
   Forall (λ row, reports_absent row = true)
     (yielded (property_query escape_sql_identifier w schema table)) →
   is_migrated escape_sql_identifier w schema table = Return false) ∧
  (raised (property_query escape_sql_identifier w schema table) = None →
   Exists (λ row, reports_absent row = false)
     (yielded (property_query escape_sql_identifier w schema table)) →
   is_migrated escape_sql_identifier w schema table = Return true).
Proof.
  unfold is_migrated, property_query. split; [|split].
  - intros ->. by destruct (marker_row _).
  - intros -> Habsent. apply marker_row_false in Habsent. by rewrite Habsent.
  - intros _ Hpresent. apply marker_row_true in Hpresent. by rewrite Hpresent.
Qed.

(** The scan never raises, so a pass is the loop over the inventory. *)
Lemma crawl_unfold (w : World) (all_tables : list Table.t) (timestamp : string) :
  _crawl escape_sql_identifier w all_tables timestamp =
  for_yield all_tables (crawl_table escape_sql_identifier w (candidates w) timestamp)
    (MkIter [] None).
Proof.
  unfold _crawl, candidates. by rewrite ScanFacts.get_seen_tables_scanned.
Qed.

(** What the loop body does for one table, by cases: the table is not a
    candidate, or its probe denies, or its identity is malformed; the probe
    raises; the probe confirms and the identity has three parts. *)
Lemma crawl_table_cases (w : World) (reverse_seen : list (string * string))
  (timestamp : string) (table : Table.t) :
  let pending :=
    unmigrated (Py.lower (Table.database table)) (Py.lower (Table.name table)) timestamp in
  (crawl_table escape_sql_identifier w reverse_seen timestamp table =
   MkIter [pending] None) ∨
  (∃ e, PyDict.get (Table.key table) reverse_seen ≠ None ∧
        live_probe escape_sql_identifier w table = Raise e ∧
        crawl_table escape_sql_identifier w reverse_seen timestamp table =
        MkIter [] (Some e)) ∨
  (∃ target catalog schema name,
      PyDict.get (Table.key table) reverse_seen = Some target ∧
      live_probe escape_sql_identifier w table = Return true ∧
      Py.split "." target = [catalog; schema; name] ∧
      crawl_table escape_sql_identifier w reverse_seen timestamp table =
      MkIter [replace pending catalog schema name] None).
Proof.
  intros pending. unfold crawl_table, live_probe. fold pending.
  destruct (PyDict.get (Table.key table) reverse_seen) as [target|] eqn:Hkey; [|by left].
  destruct (is_migrated escape_sql_identifier w _ _) as [[]|e] eqn:Hprobe.
  - destruct (Py.split "." target) as [|catalog [|schema [|name [|]]]] eqn:Hsplit;
      simpl; try by left.
    right; right. by exists target, catalog, schema, name.
  - by left.
  - right; left. by exists e.
Qed.

Lemma crawl_table_one_or_raise (w : World) (reverse_seen : list (string * string))
  (timestamp : string) :
  one_or_raise (crawl_table escape_sql_identifier w reverse_seen timestamp).
Proof.
  intros table.
  destruct (crawl_table_cases w reverse_seen timestamp table)
    as [-> | [(e & _ & _ & ->) | (target & catalog & schema & name & _ & _ & _ & ->)]];
    eauto.
Qed.

Lemma crawl_table_key (w : World) (reverse_seen : list (string * string))
  (timestamp : string) (table : Table.t) (r : TableMigrationStatus) :
  crawl_table escape_sql_identifier w reverse_seen timestamp table = MkIter [r] None →
  key_of r = legacy_key table.
Proof.
  destruct (crawl_table_cases w reverse_seen timestamp table)
    as [-> | [(e & _ & _ & ->) | (target & catalog & schema & name & _ & _ & _ & ->)]];
    intros [= <-]; reflexivity.
Qed.

Lemma crawl_keys (w : World) (reverse_seen : list (string * string)) (timestamp : string)
  (all_tables : list Table.t) :
  (∀ table, table ∈ all_tables →
            raised (crawl_table escape_sql_identifier w reverse_seen timestamp table) = None) →
  key_of <$> (all_tables ≫= λ table,
                yielded (crawl_table escape_sql_identifier w reverse_seen timestamp table)) =
  legacy_key <$> all_tables.
Proof.
  induction all_tables as [|table all_tables IH]; intros Hall; [reflexivity|].
  rewrite bind_cons, fmap_app, fmap_cons.
  rewrite IH; [|intros table' Hin; by apply Hall, list_elem_of_further].
  specialize (Hall table (list_elem_of_here _ _)).
  destruct (crawl_table_one_or_raise w reverse_seen timestamp table) as [[r Hr] | [e He]].
  - rewrite Hr. simpl. f_equal. by eapply crawl_table_key.
  - rewrite He in Hall. discriminate Hall.
Qed.

(** C3, amended: whatever the listings of the metadata store do, a pass in
    which no live probe of a candidate table ends in a generic remote error
    does not raise and yields exactly one record per table of the inventory,
    in order, each under the lower-cased schema and table name. A generic
    remote error of the live probe of a candidate table of the inventory
    propagates out of the pass: the pass raises that error, and it yields
    fewer records than the inventory has tables. *)
Theorem refresh_completes (w : World) (all_tables : list Table.t) (timestamp : string) :
  ((∀ table, table ∈ all_tables →
             PyDict.get (Table.key table) (candidates w) ≠ None →
             live_probe escape_sql_identifier w table ≠ Raise RemoteError) →
   raised (_crawl escape_sql_identifier w all_tables timestamp) = None ∧
   length (yielded (_crawl escape_sql_identifier w all_tables timestamp)) =
   length all_tables ∧
   key_of <$> yielded (_crawl escape_sql_identifier w all_tables timestamp) =
   legacy_key <$> all_tables) ∧
  (∀ table, table ∈ all_tables →
            PyDict.get (Table.key table) (candidates w) ≠ None →
            live_probe escape_sql_identifier w table = Raise RemoteError →
            raised (_crawl escape_sql_identifier w all_tables timestamp) = Some RemoteError ∧
            (length (yielded (_crawl escape_sql_identifier w all_tables timestamp)) <
             length all_tables)%nat).
Proof.
  rewrite crawl_unfold. split.
  - intros Hprobes.
    assert (Hall : ∀ table, table ∈ all_tables →
              raised (crawl_table escape_sql_identifier w (candidates w) timestamp table) =
              None).
    { intros table Hin.
      destruct (crawl_table_cases w (candidates w) timestamp table)
        as [-> | [(e & Hkey & Hprobe & _) | (? & ? & ? & ? & _ & _ & _ & ->)]];
        [reflexivity| |reflexivity].
      destruct (is_migrated_raises _ _ _ _ Hprobe) as [-> _].
      destruct (Hprobes table Hin Hkey Hprobe). }
    rewrite (for_yield_all _ _ Hall). cbn [yielded raised].
    pose proof (crawl_keys w (candidates w) timestamp all_tables Hall) as Hkeys.
    split; [reflexivity|]. split; [|exact Hkeys].
    apply (f_equal length) in Hkeys. by rewrite !length_fmap in Hkeys.
  - intros table Hin Hkey Hprobe.
    assert (Hbody : crawl_table escape_sql_identifier w (candidates w) timestamp table =
                    MkIter [] (Some RemoteError)).
    { unfold crawl_table. unfold live_probe in Hprobe.
      destruct (PyDict.get (Table.key table) (candidates w)); [|done].
      by rewrite Hprobe. }
    destruct (for_yield_raises all_tables
                (crawl_table escape_sql_identifier w (candidates w) timestamp)
                table RemoteError (crawl_table_one_or_raise w (candidates w) timestamp)
                Hin Hbody) as (table' & e' & _ & Hbody' & Hraised & Hlen).
    split; [|exact Hlen]. rewrite Hraised. f_equal.
    destruct (crawl_table_cases w (candidates w) timestamp table')
      as [Hcase | [(e & _ & Hprobe' & Hcase) | (? & ? & ? & ? & _ & _ & _ & Hcase)]];
      rewrite Hcase in Hbody'; try discriminate Hbody'.
    injection Hbody' as <-. by destruct (is_migrated_raises _ _ _ _ Hprobe').
Qed.

(** C4, amended: once a pass has yielded the records of the tables before
    it, a table of the inventory with a candidate match whose destination
    identity does not split into three parts, and whose live probe confirms
    the migration, gets a record without destination fields. A yielded record has a
    destination field set only for a table with a candidate match that the
    live probe confirms and whose identity splits into exactly three parts,
    which are then its catalog, its schema and its table, in that order. *)
Theorem malformed_destination_is_unmigrated
  (w : World) (all_tables : list Table.t) (timestamp : string) :
  (∀ (i : nat) (table : Table.t) (target : string),
     (i ≤ length (yielded (_crawl escape_sql_identifier w all_tables timestamp)))%nat →
     all_tables !! i = Some table →
     PyDict.get (Table.key table) (candidates w) = Some target →
     live_probe escape_sql_identifier w table = Return true →
     length (Py.split "." target) ≠ 3 →
     yielded (_crawl escape_sql_identifier w all_tables timestamp) !! i =
     Some (unmigrated (Py.lower (Table.database table)) (Py.lower (Table.name table))
             timestamp)) ∧
  (∀ (i : nat) (r : TableMigrationStatus),
     yielded (_crawl escape_sql_identifier w all_tables timestamp) !! i = Some r →
     has_destination r = true →
     ∃ (table : Table.t) (target catalog schema name : string),
       all_tables !! i = Some table ∧
       PyDict.get (Table.key table) (candidates w) = Some target ∧
       live_probe escape_sql_identifier w table = Return true ∧
       Py.split "." target = [catalog; schema; name] ∧
       dst_catalog r = Some catalog ∧ dst_schema r = Some schema ∧ dst_table r = Some name).
Proof.
  rewrite crawl_unfold. split.
  - intros i table target Hreached Hi Hkey Hprobe Hparts.
    apply (for_yield_reached _ _ i table); try done.
    { apply crawl_table_one_or_raise. }
    unfold crawl_table. unfold live_probe in Hprobe. rewrite Hkey, Hprobe.
    apply Nat.eqb_neq in Hparts. by rewrite Hparts.
  - intros i r Hi Hdst.
    destruct (for_yield_lookup all_tables
                (crawl_table escape_sql_identifier w (candidates w) timestamp) i r)
      as (table & Htable & Hr); [apply crawl_table_one_or_raise|exact Hi|].
    destruct (crawl_table_cases w (candidates w) timestamp table)
      as [Hcase | [(e & _ & _ & Hcase) | (target & catalog & schema & name
                                          & Hkey & Hprobe & Hsplit & Hcase)]];
      rewrite Hcase in Hr.
    + injection Hr as <-. discriminate Hdst.
    + discriminate Hr.
    + injection Hr as <-. by exists table, target, catalog, schema, name.
Qed.

End Pass.

(** C3, as stated, fails: with one candidate table whose property query ends
    in a generic remote error, the pass raises that error and yields no
    record. *)
Lemma refresh_never_raises_counterexample :
  ¬ (∀ (escape_sql_identifier : string → string) (w : World) (all_tables : list Table.t)
       (timestamp : string),
       raised (_crawl escape_sql_identifier w all_tables timestamp) = None ∧
       length (yielded (_crawl escape_sql_identifier w all_tables timestamp)) =
       length all_tables).
Proof.
  intros H.
  destruct (H backticks
              (store [upgraded "main.sales.orders" "hive_metastore.sales.orders"]
                     (MkIter [] (Some RemoteError)))
              [legacy_orders] "1730000000.0") as [Hraised _].
  vm_compute in Hraised. discriminate Hraised.
Qed.

Example refresh_raises :
  _crawl backticks
    (store [upgraded "main.sales.orders" "hive_metastore.sales.orders"]
           (MkIter [] (Some RemoteError)))
    [legacy_orders] "1730000000.0" =
  MkIter [] (Some RemoteError).
Proof. vm_compute. reflexivity. Qed.

Lemma live_check_cases_witness :
  is_migrated backticks (store [] (MkIter [] (Some NotFound))) "sales" "orders" = Return true.
Proof.
  apply (proj1 (live_check_cases backticks (store [] (MkIter [] (Some NotFound)))
                  "sales" "orders")).
  reflexivity.
Defined.

(** C4, as stated, fails: the second table of the inventory has a candidate
    match with a two-part identity and its live probe confirms; the live probe
    of the first table, a candidate too, ends in a generic remote error, so
    the pass raises before it reaches the second table and yields no record
    for it. *)
Lemma malformed_destination_counterexample :
  ¬ (∀ (escape_sql_identifier : string → string) (w : World) (all_tables : list Table.t)
       (timestamp : string) (table : Table.t) (target : string),
       table ∈ all_tables →
       PyDict.get (Table.key table) (candidates w) = Some target →
       length (Py.split "." target) ≠ 3 →
       live_probe escape_sql_identifier w table = Return true →
       unmigrated (Py.lower (Table.database table)) (Py.lower (Table.name table)) timestamp
       ∈ yielded (_crawl escape_sql_identifier w all_tables timestamp)).
Proof.
  intros H.
  specialize (H backticks
                (with_fetch
                   (store [upgraded "main.sales.orders" "hive_metastore.sales.orders";
                           upgraded "sales.items" "hive_metastore.sales.items"]
                      marker_present)
                   orders_probe_fails)
                [legacy_orders; legacy_items] "1730000000.0" legacy_items "sales.items").
  assert (Hin : legacy_items ∈ [legacy_orders; legacy_items]).
  { apply list_elem_of_further, list_elem_of_here. }
  specialize (H Hin).
  assert (Hpass : _crawl backticks
                    (with_fetch
                       (store [upgraded "main.sales.orders" "hive_metastore.sales.orders";
                               upgraded "sales.items" "hive_metastore.sales.items"]
                          marker_present)
                       orders_probe_fails)
                    [legacy_orders; legacy_items] "1730000000.0" =
                  MkIter [] (Some RemoteError)).
  { vm_compute. reflexivity. }
  rewrite Hpass in H. cbn [yielded] in H.
  eapply not_elem_of_nil, H.
  - vm_compute. reflexivity.
  - vm_compute. discriminate.
  - vm_compute. reflexivity.
Qed.

Lemma refresh_completes_witness :
  raised (_crawl backticks
            (store [upgraded "main.sales.orders" "hive_metastore.sales.orders"] marker_present)
            [legacy_orders] "1730000000.0") = None ∧
  length (yielded (_crawl backticks
            (store [upgraded "main.sales.orders" "hive_metastore.sales.orders"] marker_present)
            [legacy_orders] "1730000000.0")) = length [legacy_orders] ∧
  key_of <$> yielded (_crawl backticks
            (store [upgraded "main.sales.orders" "hive_metastore.sales.orders"] marker_present)
            [legacy_orders] "1730000000.0") = legacy_key <$> [legacy_orders].
Proof.
  apply (proj1 (refresh_completes backticks
                  (store [upgraded "main.sales.orders" "hive_metastore.sales.orders"]
                     marker_present)
                  [legacy_orders] "1730000000.0")).
  intros table Hin%list_elem_of_singleton _. subst table. vm_compute. discriminate.
Defined.

Lemma malformed_destination_is_unmigrated_witness :
  yielded (_crawl backticks
             (store [upgraded "sales.orders" "hive_metastore.sales.orders"] marker_present)
             [legacy_orders] "1730000000.0") !! 0 =
  Some (unmigrated "sales" "orders" "1730000000.0").
Proof.
  apply (proj1 (malformed_destination_is_unmigrated backticks
                  (store [upgraded "sales.orders" "hive_metastore.sales.orders"] marker_present)
                  [legacy_orders] "1730000000.0") 0 legacy_orders "sales.orders").
  - apply Nat.le_0_l.
  - reflexivity.
  - vm_compute. reflexivity.
  - vm_compute. reflexivity.
  - vm_compute. discriminate.
Defined.

(** The scenarios of the refresh, evaluated. *)
Example clean_migration :
  _crawl backticks
    (store [upgraded "main.sales.orders" "hive_metastore.sales.orders"] marker_present)
    [legacy_orders] "1730000000.0" =
  MkIter [MkTableMigrationStatus "sales" "orders" (Some "main") (Some "sales") (Some "orders")
            (Some "1730000000.0")] None.
Proof. vm_compute. reflexivity. Qed.

Example candidate_without_confirmation :
  _crawl backticks
    (store [upgraded "main.sales.orders" "hive_metastore.sales.orders"] marker_absent)
    [legacy_orders] "1730000000.0" =
  MkIter [unmigrated "sales" "orders" "1730000000.0"] None.
Proof. vm_compute. reflexivity. Qed.

Example vanished_source :
  _crawl backticks
    (store [upgraded "main.sales.orders" "hive_metastore.sales.orders"]
           (MkIter [] (Some NotFound)))
    [legacy_orders] "1730000000.0" =
  MkIter [MkTableMigrationStatus "sales" "orders" (Some "main") (Some "sales") (Some "orders")
            (Some "1730000000.0")] None.
Proof. vm_compute. reflexivity. Qed.

Example malformed_identity :
  _crawl backticks
    (store [upgraded "sales.orders" "hive_metastore.sales.orders"] marker_present)
    [legacy_orders] "1730000000.0" =
  MkIter [unmigrated "sales" "orders" "1730000000.0"] None.
Proof. vm_compute. reflexivity. Qed.

End CrawlFacts.

(** ** The index over any collection *)

Module IndexLaws.
Import TableMigrationIndex.

Lemma init_lookup_origin (tables : list TableMigrationStatus) (k : string * string)
  (r : TableMigrationStatus) :
  _index (init tables) !! k = Some r ↔
  ∃ before after : list TableMigrationStatus,
    tables = (before ++ r :: after)%list ∧ key_of r = k ∧
    Forall (λ r', key_of r' ≠ k) after.
Proof.
  revert r. induction tables as [|ms tables IH] using rev_ind; intros r.
  - split; [unfold init; simpl; by rewrite lookup_empty|].
    intros (before & after & Heq & _). by destruct before.
  - rewrite IndexFacts.init_snoc. destruct (decide (key_of ms = k)) as [Hk | Hk].
    + rewrite Hk, lookup_insert_eq. split.
      * intros [= <-]. exists tables, []. by repeat split.
      * intros (before & after & Heq & Hr & Hafter).
        destruct after as [|r' after _] using rev_ind.
        { apply app_inj_tail in Heq as [_ ->]. reflexivity. }
        rewrite app_comm_cons, app_assoc in Heq. apply app_inj_tail in Heq as [_ ->].
        apply Forall_app in Hafter as [_ Hlast]. by inversion Hlast.
    + rewrite lookup_insert_ne by done. rewrite IH. split.
      * intros (before & after & -> & Hr & Hafter). exists before, (after ++ [ms])%list.
        split; [by rewrite <- app_assoc|]. split; [done|].
        apply Forall_app. split; [done|]. by constructor.
      * intros (before & after & Heq & Hr & Hafter).
        destruct after as [|r' after _] using rev_ind.
        { apply app_inj_tail in Heq as [_ ->]. congruence. }
        rewrite app_comm_cons, app_assoc in Heq. apply app_inj_tail in Heq as [-> ->].
        apply Forall_app in Hafter as [Hafter _]. by exists before, after.
Qed.

Lemma snapshot_keys (tables : list TableMigrationStatus) :
  snapshot (init tables) = list_to_set (key_of <$> tables).
Proof.
  unfold snapshot. induction tables as [|ms tables IH] using rev_ind.
  - unfold init; simpl. by rewrite dom_empty_L.
  - rewrite IndexFacts.init_snoc, dom_insert_L, IH, fmap_app, list_to_set_app_L.
    simpl. rewrite (right_id_L ∅ (∪)). apply (comm_L (∪)).
Qed.

(** X1: over any collection, with duplicates and any casing, [get] answers
    a record exactly when that record is the last one of the collection filed
    under the lower-cased pair and its destination table is set and not
    empty; [is_migrated] is true exactly when there is such a record. *)
Theorem get_last_record (tables : list TableMigrationStatus) (schema table : string) :
  (∀ r, get (init tables) schema table = Some r ↔
        ∃ before after : list TableMigrationStatus,
          tables = (before ++ r :: after)%list ∧
          key_of r = (Py.lower schema, Py.lower table) ∧
          Forall (λ r', key_of r' ≠ (Py.lower schema, Py.lower table)) after ∧
          Py.truthy (dst_table r) = true) ∧
  (is_migrated (init tables) schema table = true ↔
   ∃ r, get (init tables) schema table = Some r).
Proof.
  split.
  - intros r. rewrite IndexFacts.get_lookup. split.
    + destruct (_index (init tables) !! _) as [dst|] eqn:Hdst; [|discriminate].
      destruct (Py.truthy (dst_table dst)) eqn:Htruthy; [|discriminate].
      intros [= <-]. apply init_lookup_origin in Hdst as (before & after & ? & ? & ?).
      by exists before, after.
    + intros (before & after & Heq & Hkey & Hafter & Htruthy).
      assert (Hdst : _index (init tables) !! (Py.lower schema, Py.lower table) = Some r).
      { apply init_lookup_origin. by exists before, after. }
      by rewrite Hdst, Htruthy.
  - unfold is_migrated. destruct (get (init tables) schema table) as [r|].
    + split; [by exists r|reflexivity].
    + split; [discriminate|]. by intros [r Hr].
Qed.

(** X2: the snapshot of an index is the set of the keys of its records, so a
    lookup can only succeed on a pair whose lower-cased form is in the
    snapshot; outside it [get] is absent and [is_migrated] is false. *)
Theorem snapshot_bounds_lookups (tables : list TableMigrationStatus) :
  snapshot (init tables) = list_to_set (key_of <$> tables) ∧
  (∀ schema table,
     (Py.lower schema, Py.lower table) ∉ snapshot (init tables) →
     get (init tables) schema table = None ∧
     is_migrated (init tables) schema table = false) ∧
  (∀ schema table r,
     get (init tables) schema table = Some r →
     r ∈ tables ∧ src_schema r = Py.lower schema ∧ src_table r = Py.lower table).
Proof.
  split; [apply snapshot_keys|]. split.
  - intros schema table Hout. unfold is_migrated. rewrite IndexFacts.get_lookup.
    unfold snapshot in Hout. apply not_elem_of_dom in Hout. by rewrite Hout.
  - intros schema table r. rewrite IndexFacts.get_lookup.
    destruct (_index (init tables) !! _) as [dst|] eqn:Hdst; [|discriminate].
    destruct (Py.truthy (dst_table dst)); [|discriminate]. intros [= <-].
    apply init_lookup_origin in Hdst as (before & after & -> & Hkey & _).
    injection Hkey as Hs Ht. repeat split; [|done|done].
    apply elem_of_app. right. apply list_elem_of_here.
Qed.

(** An index built from no records, as the linters are given, knows nothing. *)
Example empty_index (schema table : string) :
  get (init []) schema table = None ∧ is_migrated (init []) schema table = false ∧
  snapshot (init []) = ∅.
Proof. unfold is_migrated, get, snapshot, init; simpl. by rewrite lookup_empty, dom_empty_L. Qed.

End IndexLaws.

(** ** Dotted identities: splitting and joining *)

Module DottedFacts.
Import Py.

Lemma contains_char (sep a : ascii) (s : string) :
  contains (String sep "") (String a s) =
  (if Ascii.eqb sep a then true else contains (String sep "") s).
Proof.
  simpl. destruct (Ascii.eqb_spec sep a) as [->|Hne].
  - destruct (ascii_dec a a); [|done]. by destruct s.
  - destruct (ascii_dec sep a); [done|]. reflexivity.
Qed.

Lemma split_free (sep : ascii) (a : string) :
  contains (String sep "") a = false → split sep a = [a].
Proof.
  induction a as [|c a IH]; [reflexivity|]. rewrite contains_char.
  destruct (Ascii.eqb_spec sep c) as [->|Hne]; [discriminate|]. intros Hfree. simpl.
  destruct (Ascii.eqb_spec c sep) as [->|_]; [done|]. by rewrite IH.
Qed.

Lemma split_app_sep (sep : ascii) (a b : string) :
  contains (String sep "") a = false →
  split sep (a +:+ String sep b) = a :: split sep b.
Proof.
  induction a as [|c a IH].
  - intros _. simpl. by rewrite Ascii.eqb_refl.
  - rewrite contains_char. destruct (Ascii.eqb_spec sep c) as [->|Hne]; [discriminate|].
    intros Hfree. simpl. destruct (Ascii.eqb_spec c sep) as [->|_]; [done|]. by rewrite IH.
Qed.

Lemma split_concat (sep : ascii) (s : string) :
  String.concat (String sep "") (split sep s) = s.
Proof.
  induction s as [|c s IH]; [reflexivity|]. simpl.
  destruct (Ascii.eqb_spec c sep) as [->|Hne].
  - pose proof (PyFacts.split_nonempty sep s) as Hne.
    destruct (split sep s) as [|w ws]; [done|]. simpl in *. by rewrite IH.
  - pose proof (PyFacts.split_nonempty sep s) as Hsplit.
    destruct (split sep s) as [|w ws]; [done|]. simpl in *.
    destruct ws; simpl in *; by rewrite <- IH.
Qed.

Lemma split_three_join (target catalog schema name : string) :
  split "." target = [catalog; schema; name] →
  target = catalog +:+ "." +:+ schema +:+ "." +:+ name.
Proof. intros Hsplit. by rewrite <- (split_concat "." target), Hsplit. Qed.

Lemma split_parts_free (sep : ascii) (s : string) :
  Forall (λ part, contains (String sep "") part = false) (split sep s).
Proof.
  induction s as [|c s IH]; simpl.
  - by repeat constructor.
  - destruct (Ascii.eqb_spec c sep) as [->|Hne].
    + by constructor.
    + pose proof (PyFacts.split_nonempty sep s) as Hsplit.
      destruct (split sep s) as [|w ws]; [done|]. inversion IH as [|? ? Hw Hws]; subst.
      constructor; [|done]. rewrite contains_char.
      destruct (Ascii.eqb_spec sep c) as [->|_]; done.
Qed.

Lemma lower_ascii_dot (c : ascii) : Ascii.eqb "." (lower_ascii c) = Ascii.eqb "." c.
Proof. destruct c as [[] [] [] [] [] [] [] []]; reflexivity. Qed.

Lemma lower_keeps_dots (s : string) : contains "." (lower s) = contains "." s.
Proof.
  induction s as [|c s IH]; [reflexivity|].
  change (lower (String c s)) with (String (lower_ascii c) (lower s)).
  by rewrite !contains_char, lower_ascii_dot, IH.
Qed.

Lemma split_dotted (a b c : string) :
  contains "." a = false → contains "." b = false → contains "." c = false →
  split "." (a +:+ "." +:+ b +:+ "." +:+ c) = [a; b; c].
Proof.
  intros Ha Hb Hc.
  change (a +:+ "." +:+ b +:+ "." +:+ c) with (a +:+ String "." (b +:+ String "." c)).
  rewrite (split_app_sep "." a) by done.
  rewrite (split_app_sep "." b) by done. by rewrite split_free.
Qed.

End DottedFacts.

(** ** Destination identities and table keys *)

Module RecordLaws.

(** X3: [destination] and the split of the refresh pass are inverse to each
    other. A record whose three destination fields are set, hold ASCII text
    and contain no dot has a destination that splits on dots into exactly its
    lower-cased fields; and a record given the three parts of an identity, as
    the pass does, has the lower-cased identity as its destination. *)
Theorem destination_split_round_trip :
  (∀ (r : TableMigrationStatus) (catalog schema table : string),
     dst_catalog r = Some catalog → dst_schema r = Some schema → dst_table r = Some table →
     ascii_text catalog = true → ascii_text schema = true → ascii_text table = true →
     Py.contains "." catalog = false → Py.contains "." schema = false →
     Py.contains "." table = false →
     Py.split "." (destination r) = [Py.lower catalog; Py.lower schema; Py.lower table]) ∧
  (∀ (status : TableMigrationStatus) (target catalog schema table : string),
     Py.split "." target = [catalog; schema; table] →
     destination (TableMigrationStatusRefresher.replace status catalog schema table) =
     Py.lower target).
Proof.
  split.
  - intros r catalog schema table Hc Hs Ht Hac Has Hat Hfc Hfs Hft.
    rewrite RecordFacts.destination_rendered by (by rewrite ?Hc, ?Hs, ?Ht).
    rewrite Hc, Hs, Ht. simpl.
    apply DottedFacts.split_dotted; by rewrite DottedFacts.lower_keeps_dots.
  - intros status target catalog schema table Hsplit.
    rewrite (DottedFacts.split_three_join _ _ _ _ Hsplit). reflexivity.
Qed.

(** On ASCII fields lower-casing the whole key is lower-casing each field. *)
Lemma key_rendered (v : TableView.t) :
  ascii_text (TableView.catalog v) = true →
  ascii_text (TableView.schema v) = true →
  ascii_text (TableView.name v) = true →
  TableView.key v =
  Py.lower (TableView.catalog v) +:+ "." +:+ Py.lower (TableView.schema v) +:+ "."
  +:+ Py.lower (TableView.name v).
Proof. intros _ _ _. unfold TableView.key. by rewrite !PyFacts.lower_app. Qed.

Lemma lower_ascii_stays_ascii (c : ascii) :
  (nat_of_ascii (Py.lower_ascii c) <? 128)%nat = (nat_of_ascii c <? 128)%nat.
Proof. destruct c as [[] [] [] [] [] [] [] []]; reflexivity. Qed.

Lemma lower_stays_ascii (s : string) : ascii_text (Py.lower s) = ascii_text s.
Proof.
  unfold ascii_text. induction s as [|c s IH]; [reflexivity|].
  change (Py.lower (String c s)) with (String (Py.lower_ascii c) (Py.lower s)).
  cbn [all_chars]. by rewrite IH, lower_ascii_stays_ascii.
Qed.

(** X4: the key of a table view is lower-cased. On views whose fields hold
    ASCII text it does not depend on the casing of the fields; and two such
    views whose fields contain no dot have the same key exactly when their
    fields agree up to case. *)
Theorem table_view_key_identifies (v1 v2 : TableView.t) :
  Py.lower (TableView.key v1) = TableView.key v1 ∧
  (ascii_text (TableView.catalog v1) = true →
   ascii_text (TableView.schema v1) = true →
   ascii_text (TableView.name v1) = true →
   TableView.key
     (TableView.Mk (Py.lower (TableView.catalog v1)) (Py.lower (TableView.schema v1))
        (Py.lower (TableView.name v1))) = TableView.key v1) ∧
  (ascii_text (TableView.catalog v1) = true →
   ascii_text (TableView.schema v1) = true →
   ascii_text (TableView.name v1) = true →
   ascii_text (TableView.catalog v2) = true →
   ascii_text (TableView.schema v2) = true →
   ascii_text (TableView.name v2) = true →
   Py.contains "." (TableView.catalog v1) = false →
   Py.contains "." (TableView.schema v1) = false →
   Py.contains "." (TableView.name v1) = false →
   Py.contains "." (TableView.catalog v2) = false →
   Py.contains "." (TableView.schema v2) = false →
   Py.contains "." (TableView.name v2) = false →
   (TableView.key v1 = TableView.key v2 ↔
    Py.lower (TableView.catalog v1) = Py.lower (TableView.catalog v2) ∧
    Py.lower (TableView.schema v1) = Py.lower (TableView.schema v2) ∧
    Py.lower (TableView.name v1) = Py.lower (TableView.name v2))).
Proof.
  split; [|split].
  - unfold TableView.key. apply PyFacts.lower_idem.
  - intros Ha1 Ha2 Ha3.
    rewrite (key_rendered v1) by done.
    rewrite key_rendered by (simpl; by rewrite lower_stays_ascii).
    simpl. by rewrite !PyFacts.lower_idem.
  - intros Ha1 Ha2 Ha3 Hb1 Hb2 Hb3 Hc1 Hs1 Hn1 Hc2 Hs2 Hn2.
    rewrite (key_rendered v1), (key_rendered v2) by done. split.
    + intros Hkey. apply (f_equal (Py.split ".")) in Hkey.
      rewrite !DottedFacts.split_dotted in Hkey
        by (by rewrite DottedFacts.lower_keeps_dots).
      by injection Hkey.
    + by intros (-> & -> & ->).
Qed.

Example table_view_key_orders :
  TableView.key (TableView.Mk "Hive_Metastore" "Sales" "Orders") = "hive_metastore.sales.orders".
Proof. reflexivity. Qed.

Lemma destination_split_round_trip_witness :
  Py.split "."
    (destination
       (MkTableMigrationStatus "sales" "orders" (Some "Main") (Some "Sales") (Some "Orders")
          None)) =
  [Py.lower "Main"; Py.lower "Sales"; Py.lower "Orders"].
Proof.
  apply (proj1 destination_split_round_trip
           (MkTableMigrationStatus "sales" "orders" (Some "Main") (Some "Sales")
              (Some "Orders") None) "Main" "Sales" "Orders");
    reflexivity.
Defined.

Lemma table_view_key_identifies_witness :
  TableView.key (TableView.Mk "Main" "Sales" "Orders") =
  TableView.key (TableView.Mk "main" "SALES" "orders") ↔
  Py.lower "Main" = Py.lower "main" ∧ Py.lower "Sales" = Py.lower "SALES" ∧
  Py.lower "Orders" = Py.lower "orders".
Proof.
  apply (proj2 (proj2 (table_view_key_identifies (TableView.Mk "Main" "Sales" "Orders")
                         (TableView.Mk "main" "SALES" "orders"))));
    reflexivity.
Defined.

End RecordLaws.

(** ** Dictionaries: keys, entries and inversion *)

Module DictLaws.
Section dict.
Context {K V : Type} `{EqDecision K}.

Lemma get_None (k : K) (d : list (K * V)) : PyDict.get k d = None ↔ k ∉ d.*1.
Proof.
  induction d as [|[k0 v0] d IH]; simpl.
  - split; [intros _; apply not_elem_of_nil|done].
  - destruct (decide (k = k0)) as [->|Hne].
    + split; [discriminate|]. intros Hout. destruct Hout. apply list_elem_of_here.
    + rewrite IH, not_elem_of_cons. simpl. split; [by split|by intros [_ ?]].
Qed.

Lemma get_elem_of (k : K) (v : V) (d : list (K * V)) :
  PyDict.get k d = Some v → (k, v) ∈ d.
Proof.
  induction d as [|[k0 v0] d IH]; simpl; [discriminate|].
  destruct (decide (k = k0)) as [->|Hne].
  - intros [= ->]. apply list_elem_of_here.
  - intros Hk. by apply list_elem_of_further, IH.
Qed.

Lemma elem_of_get (k : K) (v : V) (d : list (K * V)) :
  NoDup d.*1 → (k, v) ∈ d → PyDict.get k d = Some v.
Proof.
  induction d as [|[k0 v0] d IH]; simpl; intros Hnd Hin.
  - by apply elem_of_nil in Hin.
  - apply NoDup_cons in Hnd as [Hfresh Hnd].
    apply elem_of_cons in Hin as [[= -> ->] | Hin].
    + by destruct (decide (k0 = k0)).
    + destruct (decide (k = k0)) as [->|Hne]; [|by apply IH].
      destruct Hfresh. apply list_elem_of_fmap. by exists (k0, v).
Qed.

Lemma set_absent (k : K) (v : V) (d : list (K * V)) :
  k ∉ d.*1 → PyDict.set k v d = (d ++ [(k, v)])%list.
Proof.
  induction d as [|[k0 v0] d IH]; simpl; [done|].
  rewrite not_elem_of_cons. intros [Hne Hout].
  destruct (decide (k = k0)); [done|]. by rewrite IH.
Qed.

Lemma set_present (k : K) (v : V) (d : list (K * V)) :
  k ∈ d.*1 → (PyDict.set k v d).*1 = d.*1.
Proof.
  induction d as [|[k0 v0] d IH]; csimpl.
  - by intros ?%elem_of_nil.
  - destruct (decide (k = k0)) as [->|Hne]; [done|].
    intros [?|Hin]%elem_of_cons; [done|]. csimpl. by rewrite IH.
Qed.

Lemma set_NoDup (k : K) (v : V) (d : list (K * V)) :
  NoDup d.*1 → NoDup (PyDict.set k v d).*1.
Proof.
  intros Hnd. destruct (decide (k ∈ d.*1)) as [Hin | Hout].
  - by rewrite set_present.
  - rewrite set_absent by done. rewrite fmap_app. apply NoDup_app. split; [done|].
    split; [|apply NoDup_singleton].
    intros k' Hk' ->%list_elem_of_singleton. done.
Qed.

Lemma set_entries (k k' : K) (v v' : V) (d : list (K * V)) :
  (k', v') ∈ PyDict.set k v d → (k', v') = (k, v) ∨ (k', v') ∈ d.
Proof.
  induction d as [|[k0 v0] d IH]; simpl.
  - intros ->%list_elem_of_singleton. by left.
  - destruct (decide (k = k0)) as [->|Hne].
    + intros [->|Hin]%elem_of_cons; [by left|]. right. by apply list_elem_of_further.
    + intros [->|Hin]%elem_of_cons; [right; apply list_elem_of_here|].
      destruct (IH Hin) as [?|?]; [by left|]. right. by apply list_elem_of_further.
Qed.

End dict.

Section invert.
Context {K V : Type} `{EqDecision K} `{EqDecision V}.

Lemma invert_snoc (d : list (K * V)) (k : K) (v : V) :
  PyDict.invert (d ++ [(k, v)]) = PyDict.set v k (PyDict.invert d).
Proof. unfold PyDict.invert, PyDict.items. by rewrite foldl_app. Qed.

(** The inverse maps a value to the key of the last entry that holds it. *)
Lemma invert_get (d : list (K * V)) (v : V) (k : K) :
  PyDict.get v (PyDict.invert d) = Some k ↔
  ∃ before after : list (K * V),
    d = (before ++ (k, v) :: after)%list ∧ Forall (λ kv, kv.2 ≠ v) after.
Proof.
  revert k. induction d as [|[k0 v0] d IH] using rev_ind; intros k.
  - split; [discriminate|]. intros (before & after & Heq & _). by destruct before.
  - rewrite invert_snoc, DictFacts.get_set. destruct (decide (v = v0)) as [->|Hne].
    + split.
      * intros [= ->]. exists d, []. by split.
      * intros (before & after & Heq & Hafter).
        destruct after as [|kv after _] using rev_ind.
        { apply app_inj_tail in Heq as [_ Hkv]. by simplify_eq. }
        rewrite app_comm_cons, app_assoc in Heq. apply app_inj_tail in Heq as [_ <-].
        apply Forall_app in Hafter as [_ Hlast]. by inversion Hlast.
    + rewrite IH. split.
      * intros (before & after & -> & Hafter). exists before, (after ++ [(k0, v0)])%list.
        split; [by rewrite <- app_assoc|]. apply Forall_app. split; [done|].
        constructor; [|done]. simpl. congruence.
      * intros (before & after & Heq & Hafter).
        destruct after as [|kv after _] using rev_ind.
        { apply app_inj_tail in Heq as [_ Hkv]. by simplify_eq. }
        rewrite app_comm_cons, app_assoc in Heq. apply app_inj_tail in Heq as [-> <-].
        apply Forall_app in Hafter as [Hafter _]. by exists before, after.
Qed.

Lemma invert_is_Some (d : list (K * V)) (v : V) (k : K) :
  (k, v) ∈ d → is_Some (PyDict.get v (PyDict.invert d)).
Proof.
  induction d as [|[k0 v0] d IH] using rev_ind.
  - by intros ?%elem_of_nil.
  - rewrite invert_snoc, DictFacts.get_set. destruct (decide (v = v0)); [by eexists|].
    intros [Hin | Hin]%elem_of_app; [by apply IH|].
    apply list_elem_of_singleton in Hin. congruence.
Qed.

End invert.
End DictLaws.

(** ** The seen-tables map: shape, catalogs, candidates *)

Module ScanLaws.
Import TableMigrationStatusRefresher.

Lemma qualified_name_nonempty (table : TableInfo.t) (full_name : string) :
  qualified_name table = Some full_name → Py.lower full_name ≠ "".
Proof.
  unfold qualified_name. destruct (TableInfo.full_name table) as [[|c s]|]; try discriminate.
  by intros [= <-].
Qed.

Lemma see_table_shape (seen_tables : list (string * string)) (table : TableInfo.t) :
  NoDup seen_tables.*1 →
  Forall (λ kv, lower_cased kv.1 ∧ lower_cased kv.2 ∧ kv.1 ≠ "") seen_tables →
  NoDup (see_table seen_tables table).*1 ∧
  Forall (λ kv, lower_cased kv.1 ∧ lower_cased kv.2 ∧ kv.1 ≠ "") (see_table seen_tables table).
Proof.
  intros Hnd Hall. rewrite ScanFacts.see_table_entry.
  destruct (qualified_name table) as [full_name|] eqn:Hfn; [|done].
  destruct (back_reference table) as [upgraded_from|]; [|done].
  split; [by apply DictLaws.set_NoDup|].
  apply Forall_forall. intros [k v] Hin.
  apply DictLaws.set_entries in Hin as [[= -> ->] | Hin].
  - unfold lower_cased; simpl. rewrite !PyFacts.lower_idem.
    repeat split. by eapply qualified_name_nonempty.
  - by apply (proj1 (Forall_forall _ _) Hall).
Qed.

Lemma seen_shape (tables : list TableInfo.t) (seen_tables : list (string * string)) :
  NoDup seen_tables.*1 →
  Forall (λ kv, lower_cased kv.1 ∧ lower_cased kv.2 ∧ kv.1 ≠ "") seen_tables →
  NoDup (foldl see_table seen_tables tables).*1 ∧
  Forall (λ kv, lower_cased kv.1 ∧ lower_cased kv.2 ∧ kv.1 ≠ "")
    (foldl see_table seen_tables tables).
Proof.
  revert seen_tables. induction tables as [|table tables IH]; intros seen Hnd Hall; simpl;
    [done|].
  destruct (see_table_shape seen table Hnd Hall) as [Hnd' Hall']. by apply IH.
Qed.

Lemma scanned_shape (w : World) :
  NoDup (foldl see_table [] (scanned_tables w)).*1 ∧
  Forall (λ kv, lower_cased kv.1 ∧ lower_cased kv.2 ∧ kv.1 ≠ "")
    (foldl see_table [] (scanned_tables w)).
Proof. apply seen_shape; [apply NoDup_nil_2|constructor]. Qed.

(** X5: the map of the scan has pairwise distinct keys, none of them empty,
    and all its keys and values are lower-cased. *)
Theorem seen_tables_shape (w : World) :
  ∃ seen : list (string * string),
    get_seen_tables w = Return seen ∧
    NoDup seen.*1 ∧
    Forall (λ kv, lower_cased kv.1 ∧ lower_cased kv.2 ∧ kv.1 ≠ "") seen.
Proof.
  exists (foldl see_table [] (scanned_tables w)).
  split; [apply ScanFacts.get_seen_tables_scanned|apply scanned_shape].
Qed.

Lemma scannable_cases (w : World) (catalog : CatalogInfo.t) :
  (scannable catalog = true ∧ skipped catalog = false) ∨
  (scannable catalog = false ∧
   (skipped catalog = true ∨ yielded (schemas_of w catalog) = [])).
Proof.
  unfold scannable, skipped, schemas_of.
  destruct (CatalogInfo.name catalog), (CatalogInfo.catalog_type catalog) as [[]|];
    simpl; auto.
Qed.

Lemma scannable_schemas (w : World) (catalogs : list CatalogInfo.t) :
  (List.filter (λ catalog, negb (skipped catalog)) (List.filter scannable catalogs)
     ≫= λ catalog, yielded (schemas_of w catalog)) =
  (List.filter (λ catalog, negb (skipped catalog)) catalogs
     ≫= λ catalog, yielded (schemas_of w catalog)).
Proof.
  induction catalogs as [|catalog catalogs IH]; [reflexivity|].
  cbn [List.filter].
  destruct (scannable_cases w catalog) as [[-> Hs] | [-> [Hs | Hnone]]].
  - cbn [List.filter]. rewrite Hs. cbn [negb]. by rewrite !bind_cons, IH.
  - by rewrite Hs.
  - destruct (negb (skipped catalog)); [|exact IH].
    by rewrite bind_cons, Hnone, IH.
Qed.

(** X6: the scan goes only into named catalogs that are not system catalogs,
    and a failure of the catalog listing ends it silently: the map is that of
    the state whose catalog listing shows just those catalogs, in the same
    order, and ends normally after the last one it showed. *)
Theorem scan_goes_into_scannable_catalogs (w : World) :
  get_seen_tables w =
  get_seen_tables
    (with_catalogs w (MkIter (List.filter scannable (yielded (ws_catalogs_list w))) None)).
Proof.
  rewrite !ScanFacts.get_seen_tables_scanned. f_equal. f_equal.
  unfold scanned_tables. rewrite !ScanFacts.iter_schemas_unfold. cbn [yielded].
  unfold _iter_catalogs, with_catalogs. cbn [ws_catalogs_list yielded].
  by rewrite (scannable_schemas _ (yielded (ws_catalogs_list w))).
Qed.

Example scan_survives_failed_catalog_listing :
  get_seen_tables
    (with_catalogs (store [upgraded "main.sales.orders" "hive_metastore.sales.orders"]
                      marker_present)
       (MkIter [CatalogInfo.Mk None None; system_catalog; main_catalog] (Some RemoteError))) =
  Return [("main.sales.orders", "hive_metastore.sales.orders")].
Proof. vm_compute. reflexivity. Qed.

(** X7: the candidate matches of a pass are the inverse of the map of the
    scan. A legacy key has a candidate exactly when it is the value of an
    entry of the map; its destination identity is then the key of such an
    entry, the last one in the order of the map, and so the lower-cased full
    name of a reached table whose lower-cased back-reference is the legacy
    key. *)
Theorem candidates_invert_seen (w : World) :
  ∃ seen : list (string * string),
    get_seen_tables w = Return seen ∧
    ∀ key target : string,
      (PyDict.get key (candidates w) = Some target ↔
       ∃ before after : list (string * string),
         seen = (before ++ (target, key) :: after)%list ∧
         Forall (λ kv, kv.2 ≠ key) after) ∧
      (PyDict.get key (candidates w) = Some target →
       PyDict.get target seen = Some key ∧
       ∃ table, reached w table ∧ contributes table target key) ∧
      (PyDict.get target seen = Some key → is_Some (PyDict.get key (candidates w))).
Proof.
  exists (foldl see_table [] (scanned_tables w)).
  split; [apply ScanFacts.get_seen_tables_scanned|].
  intros key target. unfold candidates. rewrite ScanFacts.get_seen_tables_scanned.
  split; [apply DictLaws.invert_get|]. split.
  - intros (before & after & Heq & _)%DictLaws.invert_get.
    assert (Hget : PyDict.get target (foldl see_table [] (scanned_tables w)) = Some key).
    { apply DictLaws.elem_of_get; [apply scanned_shape|].
      rewrite Heq. apply elem_of_app. right. apply list_elem_of_here. }
    split; [exact Hget|].
    apply ScanFacts.seen_origin in Hget as [Hget | (table & Hin & Hc)]; [discriminate|].
    exists table. split; [by apply ScanFacts.scanned_reached|done].
  - intros Hget%DictLaws.get_elem_of. by eapply DictLaws.invert_is_Some.
Qed.

End ScanLaws.

(** ** The refresh pass: outcomes, order, and the index over its records *)

Module PassLaws.
Import TableMigrationStatusRefresher.

Lemma candidate_entry (w : World) (key target : string) :
  PyDict.get key (candidates w) = Some target →
  (target, key) ∈ foldl see_table [] (scanned_tables w).
Proof.
  unfold candidates. rewrite ScanFacts.get_seen_tables_scanned.
  intros (before & after & -> & _)%DictLaws.invert_get.
  apply elem_of_app. right. apply list_elem_of_here.
Qed.

Lemma candidate_lower_cased (w : World) (key target : string) :
  PyDict.get key (candidates w) = Some target → lower_cased target.
Proof.
  intros Hin%candidate_entry.
  destruct (ScanLaws.scanned_shape w) as [_ Hall].
  by destruct (proj1 (Forall_forall _ _) Hall _ Hin) as (? & _).
Qed.

Lemma for_yield_ext {A B : Type} (xs : list A) (f g : A → Iter B) (rest : Iter B) :
  (∀ x, x ∈ xs → f x = g x) → for_yield xs f rest = for_yield xs g rest.
Proof.
  induction xs as [|x xs IH]; intros Hfg; cbn [for_yield]; [reflexivity|].
  rewrite (Hfg x (list_elem_of_here _ _)).
  rewrite IH; [reflexivity|]. intros x' Hx'. by apply Hfg, list_elem_of_further.
Qed.

(** Where a loop of one-or-raise bodies stops. *)
Lemma for_yield_stop {A B : Type} (xs : list A) (body : A → Iter B) :
  one_or_raise body →
  (raised (for_yield xs body (MkIter [] None)) = None →
   length (yielded (for_yield xs body (MkIter [] None))) = length xs) ∧
  (∀ e, raised (for_yield xs body (MkIter [] None)) = Some e →
        ∃ x, xs !! length (yielded (for_yield xs body (MkIter [] None))) = Some x ∧
             body x = MkIter [] (Some e)).
Proof.
  intros Hbody. induction xs as [|x xs [IHdone IHstop]]; cbn [for_yield].
  - split; [reflexivity|discriminate].
  - destruct (Hbody x) as [[r Hx] | [e0 Hx]]; rewrite Hx; cbn [yielded raised].
    + split.
      * intros Hnone. simpl. by rewrite IHdone.
      * intros e He. destruct (IHstop e He) as (x' & Hx' & Hraise). by exists x'.
    + split; [discriminate|]. intros e [= <-]. by exists x.
Qed.

Lemma for_yield_keys {A B C : Type} (xs : list A) (body : A → Iter B)
  (f : B → C) (g : A → C) :
  one_or_raise body →
  (∀ x r, body x = MkIter [r] None → f r = g x) →
  f <$> yielded (for_yield xs body (MkIter [] None)) =
  g <$> take (length (yielded (for_yield xs body (MkIter [] None)))) xs.
Proof.
  intros Hbody Hfg. induction xs as [|x xs IH]; cbn [for_yield]; [reflexivity|].
  destruct (Hbody x) as [[r Hx] | [e0 Hx]]; rewrite Hx; cbn [yielded raised].
  - csimpl. by rewrite IH, (Hfg x r Hx).
  - reflexivity.
Qed.

Section Pass.
Variable escape_sql_identifier : string → string.

Lemma live_probe_raises (w : World) (table : Table.t) (e : DatabricksError) :
  live_probe escape_sql_identifier w table = Raise e → e = RemoteError.
Proof.
  unfold live_probe. intros Hraise.
  by destruct (CrawlFacts.is_migrated_raises _ _ _ _ _ Hraise).
Qed.

(** X8: the live check answers true as soon as a returned row does not
    report the marker as absent, however the query ends afterwards; it raises
    exactly when the query ends in a generic remote error after rows that all
    report the marker as absent, and then it raises that error; it never
    raises not-found. *)
Theorem live_check_raises_iff (w : World) (schema table : string) :
  (Exists (λ row, reports_absent row = false)
     (yielded (property_query escape_sql_identifier w schema table)) →
   is_migrated escape_sql_identifier w schema table = Return true) ∧
  (∀ e, is_migrated escape_sql_identifier w schema table = Raise e ↔
        e = RemoteError ∧
        raised (property_query escape_sql_identifier w schema table) = Some RemoteError ∧
        Forall (λ row, reports_absent row = true)
          (yielded (property_query escape_sql_identifier w schema table))).
Proof.
  unfold is_migrated, property_query. split.
  - intros Hpresent%CrawlFacts.marker_row_true. by rewrite Hpresent.
  - intros e. destruct (marker_row _) eqn:Hrows.
    + split; [discriminate|]. intros (_ & _ & Habsent%CrawlFacts.marker_row_false).
      congruence.
    + apply CrawlFacts.marker_row_false in Hrows.
      destruct (raised _) as [[]|]; split; try discriminate; try (by intros (_ & ? & _)).
      * by intros [= <-].
      * by intros (-> & _).
Qed.

(** X9: whatever a pass yields, also one that raises later on, the record at
    a position belongs to the table of the inventory at that position: its
    source names are that table's lower-cased names, its timestamp is the one
    of the pass, and its destination fields are either all unset or all set;
    when set they are lower-cased and contain no dot. *)
Theorem pass_records_shape (w : World) (all_tables : list Table.t) (timestamp : string)
  (i : nat) (r : TableMigrationStatus) :
  yielded (_crawl escape_sql_identifier w all_tables timestamp) !! i = Some r →
  ∃ table : Table.t,
    all_tables !! i = Some table ∧
    key_of r = legacy_key table ∧
    lower_cased (src_schema r) ∧ lower_cased (src_table r) ∧
    update_ts r = Some timestamp ∧
    ((dst_catalog r = None ∧ dst_schema r = None ∧ dst_table r = None) ∨
     (∃ catalog schema name : string,
        dst_catalog r = Some catalog ∧ dst_schema r = Some schema ∧ dst_table r = Some name ∧
        Forall (λ part, lower_cased part ∧ Py.contains "." part = false)
          [catalog; schema; name])).
Proof.
  rewrite CrawlFacts.crawl_unfold. intros Hi.
  destruct (CrawlFacts.for_yield_lookup all_tables
              (crawl_table escape_sql_identifier w (candidates w) timestamp) i r)
    as (table & Htable & Hr);
    [apply CrawlFacts.crawl_table_one_or_raise|exact Hi|].
  exists table. split; [exact Htable|].
  destruct (CrawlFacts.crawl_table_cases escape_sql_identifier w (candidates w) timestamp table)
    as [Hcase | [(e & _ & _ & Hcase) | (target & catalog & schema & name
                                        & Hkey & Hprobe & Hsplit & Hcase)]];
    rewrite Hcase in Hr; [|discriminate Hr|]; injection Hr as <-;
    (split; [reflexivity|]); unfold lower_cased; simpl; rewrite !PyFacts.lower_idem;
    repeat (split; [reflexivity|]).
  - by left.
  - right. exists catalog, schema, name. repeat (split; [reflexivity|]).
    pose proof (DottedFacts.split_parts_free "." target) as Hfree. rewrite Hsplit in Hfree.
    inversion Hfree as [|? ? Hc Hfree1]; subst.
    inversion Hfree1 as [|? ? Hs Hfree2]; subst.
    inversion Hfree2 as [|? ? Hn _]; subst.
    pose proof (candidate_lower_cased w _ _ Hkey) as Hlower. unfold lower_cased in Hlower.
    rewrite (DottedFacts.split_three_join _ _ _ _ Hsplit) in Hlower.
    rewrite !PyFacts.lower_app in Hlower. apply (f_equal (Py.split ".")) in Hlower.
    rewrite !DottedFacts.split_dotted in Hlower
      by (done || by rewrite DottedFacts.lower_keeps_dots).
    injection Hlower as Hlc Hls Hln. by repeat constructor.
Qed.

(** X10: a pass yields the records of the tables of the inventory in order
    up to the first candidate table whose live probe ends in a generic remote
    error; it raises exactly that error there, and completes with a record for
    every table when there is no such table. *)
Theorem pass_stops_at_failing_probe (w : World) (all_tables : list Table.t)
  (timestamp : string) :
  key_of <$> yielded (_crawl escape_sql_identifier w all_tables timestamp) =
    legacy_key <$>
      take (length (yielded (_crawl escape_sql_identifier w all_tables timestamp)))
        all_tables ∧
  (raised (_crawl escape_sql_identifier w all_tables timestamp) = None →
   length (yielded (_crawl escape_sql_identifier w all_tables timestamp)) =
   length all_tables) ∧
  (∀ e, raised (_crawl escape_sql_identifier w all_tables timestamp) = Some e →
        e = RemoteError ∧
        ∃ table : Table.t,
          all_tables !!
            length (yielded (_crawl escape_sql_identifier w all_tables timestamp)) =
            Some table ∧
          PyDict.get (Table.key table) (candidates w) ≠ None ∧
          live_probe escape_sql_identifier w table = Raise RemoteError ∧
          Forall (λ earlier,
                    PyDict.get (Table.key earlier) (candidates w) ≠ None →
                    live_probe escape_sql_identifier w earlier ≠ Raise RemoteError)
            (take (length (yielded (_crawl escape_sql_identifier w all_tables timestamp)))
               all_tables)).
Proof.
  rewrite CrawlFacts.crawl_unfold.
  pose proof (CrawlFacts.crawl_table_one_or_raise escape_sql_identifier w (candidates w)
                timestamp) as Hbody.
  destruct (for_yield_stop all_tables _ Hbody) as [Hdone Hstop].
  split; [|split; [exact Hdone|]].
  - apply for_yield_keys; [exact Hbody|]. intros table r. apply CrawlFacts.crawl_table_key.
  - intros e He. destruct (Hstop e He) as (table & Htable & Hraise).
    destruct (CrawlFacts.crawl_table_cases escape_sql_identifier w (candidates w) timestamp
                table)
      as [Hcase | [(e' & Hkey & Hprobe & Hcase) | (? & ? & ? & ? & _ & _ & _ & Hcase)]];
      rewrite Hcase in Hraise; try discriminate Hraise.
    injection Hraise as <-. pose proof (live_probe_raises _ _ _ Hprobe) as ->.
    split; [reflexivity|]. exists table. repeat (split; [done|]).
    apply Forall_forall. intros earlier Hin Hcandidate Hprobe'.
    apply list_elem_of_lookup in Hin as [j Hj].
    pose proof (lookup_lt_Some _ _ _ Hj) as Hlt. rewrite length_take in Hlt.
    rewrite lookup_take_lt in Hj by lia.
    destruct (lookup_lt_is_Some_2
                (yielded (for_yield all_tables
                   (crawl_table escape_sql_identifier w (candidates w) timestamp)
                   (MkIter [] None))) j) as [r Hr]; [lia|].
    destruct (CrawlFacts.for_yield_lookup _ _ _ _ Hbody Hr) as (earlier' & Hj' & Hone).
    assert (earlier' = earlier) as -> by congruence.
    destruct (CrawlFacts.crawl_table_cases escape_sql_identifier w (candidates w) timestamp
                earlier)
      as [Hc | [(e' & _ & Hp & Hc) | (? & ? & ? & ? & _ & Hp & _ & Hc)]];
      unfold crawl_table in Hone; unfold live_probe in Hprobe';
      destruct (PyDict.get (Table.key earlier) (candidates w)); try done;
      rewrite Hprobe' in Hone; discriminate Hone.
Qed.

(** X11: once a pass has yielded the records of the tables before it, a
    table with a candidate match that the live probe confirms, and whose
    destination identity splits into three parts, gets the record with these
    parts as catalog, schema and table. *)
Theorem confirmed_candidate_is_migrated (w : World) (all_tables : list Table.t)
  (timestamp : string) (i : nat) (table : Table.t) (target catalog schema name : string) :
  (i ≤ length (yielded (_crawl escape_sql_identifier w all_tables timestamp)))%nat →
  all_tables !! i = Some table →
  PyDict.get (Table.key table) (candidates w) = Some target →
  live_probe escape_sql_identifier w table = Return true →
  Py.split "." target = [catalog; schema; name] →
  yielded (_crawl escape_sql_identifier w all_tables timestamp) !! i =
  Some (migrated_to table catalog schema name timestamp).
Proof.
  rewrite CrawlFacts.crawl_unfold. intros Hreached Hi Hkey Hprobe Hsplit.
  apply (CrawlFacts.for_yield_reached _ _ i table); try done.
  { apply CrawlFacts.crawl_table_one_or_raise. }
  unfold crawl_table. unfold live_probe in Hprobe. by rewrite Hkey, Hprobe, Hsplit.
Qed.

(** X12: once a pass has yielded the records of the tables before it, a
    table without candidate match gets a record without destination, whatever
    the legacy store would answer for it; so does a candidate whose live probe
    denies the migration. *)
Theorem unconfirmed_is_unmigrated (w : World) (all_tables : list Table.t)
  (timestamp : string) (i : nat) (table : Table.t) :
  (i ≤ length (yielded (_crawl escape_sql_identifier w all_tables timestamp)))%nat →
  all_tables !! i = Some table →
  PyDict.get (Table.key table) (candidates w) = None ∨
  live_probe escape_sql_identifier w table = Return false →
  yielded (_crawl escape_sql_identifier w all_tables timestamp) !! i =
  Some (unmigrated (Py.lower (Table.database table)) (Py.lower (Table.name table)) timestamp).
Proof.
  rewrite CrawlFacts.crawl_unfold. intros Hreached Hi Hcase.
  apply (CrawlFacts.for_yield_reached _ _ i table); try done.
  { apply CrawlFacts.crawl_table_one_or_raise. }
  unfold crawl_table. destruct Hcase as [Hkey | Hprobe].
  - by rewrite Hkey.
  - unfold live_probe in Hprobe. rewrite Hprobe.
    by destruct (PyDict.get (Table.key table) (candidates w)).
Qed.

Lemma crawl_table_fetch (w : World) (fetch : string → Iter Row.t)
  (reverse_seen : list (string * string)) (timestamp : string) (table : Table.t) :
  (PyDict.get (Table.key table) reverse_seen ≠ None →
   fetch (show_tblproperties escape_sql_identifier (Py.lower (Table.database table))
            (Py.lower (Table.name table))) =
   sql_fetch w (show_tblproperties escape_sql_identifier (Py.lower (Table.database table))
                  (Py.lower (Table.name table)))) →
  crawl_table escape_sql_identifier (with_fetch w fetch) reverse_seen timestamp table =
  crawl_table escape_sql_identifier w reverse_seen timestamp table.
Proof.
  intros Hsame. unfold crawl_table.
  destruct (PyDict.get (Table.key table) reverse_seen) as [target|]; [|reflexivity].
  unfold is_migrated, with_fetch; cbn [sql_fetch]. by rewrite Hsame.
Qed.

(** X13: a pass consults the legacy store for candidate tables only: two
    states that differ only in the answers to the property queries of tables
    without candidate match give the same pass. *)
Theorem pass_probes_candidates_only (w : World) (fetch : string → Iter Row.t)
  (all_tables : list Table.t) (timestamp : string) :
  (∀ table, table ∈ all_tables →
            PyDict.get (Table.key table) (candidates w) ≠ None →
            fetch (show_tblproperties escape_sql_identifier (Py.lower (Table.database table))
                     (Py.lower (Table.name table))) =
            sql_fetch w (show_tblproperties escape_sql_identifier
                           (Py.lower (Table.database table)) (Py.lower (Table.name table)))) →
  _crawl escape_sql_identifier (with_fetch w fetch) all_tables timestamp =
  _crawl escape_sql_identifier w all_tables timestamp.
Proof.
  intros Hsame. rewrite !CrawlFacts.crawl_unfold.
  change (candidates (with_fetch w fetch)) with (candidates w).
  apply for_yield_ext. intros table Hin. apply crawl_table_fetch. by apply Hsame.
Qed.

(** X14: the index over the records of a completed pass, for an inventory
    whose lower-cased names are pairwise distinct. Asked with the inventory's
    own names, it reports a table as migrated exactly when the table has a
    candidate match that the live probe confirms and whose identity splits
    into three parts with a non-empty last part; and the destination of the
    record it returns is that identity. *)
Theorem index_over_pass (w : World) (all_tables : list Table.t) (timestamp : string)
  (table : Table.t) :
  raised (_crawl escape_sql_identifier w all_tables timestamp) = None →
  NoDup (legacy_key <$> all_tables) →
  table ∈ all_tables →
  (TableMigrationIndex.is_migrated
     (TableMigrationIndex.init (yielded (_crawl escape_sql_identifier w all_tables timestamp)))
     (Table.database table) (Table.name table) = true ↔
   ∃ target catalog schema name : string,
     PyDict.get (Table.key table) (candidates w) = Some target ∧
     live_probe escape_sql_identifier w table = Return true ∧
     Py.split "." target = [catalog; schema; name] ∧ name ≠ "") ∧
  (∀ r, TableMigrationIndex.get
          (TableMigrationIndex.init
             (yielded (_crawl escape_sql_identifier w all_tables timestamp)))
          (Table.database table) (Table.name table) = Some r →
        PyDict.get (Table.key table) (candidates w) = Some (destination r)).
Proof.
  intros Hdone Hnd Hin.
  pose proof (CrawlFacts.crawl_table_one_or_raise escape_sql_identifier w (candidates w)
                timestamp) as Hbody.
  rewrite CrawlFacts.crawl_unfold in *.
  set (records := yielded (for_yield all_tables
                    (crawl_table escape_sql_identifier w (candidates w) timestamp)
                    (MkIter [] None))) in *.
  assert (Hlen : length records = length all_tables).
  { by apply (for_yield_stop all_tables _ Hbody). }
  assert (Hkeys : key_of <$> records = legacy_key <$> all_tables).
  { unfold records. rewrite (for_yield_keys all_tables _ key_of legacy_key Hbody).
    - fold records. by rewrite Hlen, firstn_all.
    - intros x r. apply CrawlFacts.crawl_table_key. }
  apply list_elem_of_lookup in Hin as [i Hi].
  destruct (lookup_lt_is_Some_2 records i) as [r Hr];
    [rewrite Hlen; by eapply lookup_lt_Some|].
  destruct (CrawlFacts.for_yield_lookup _ _ _ _ Hbody Hr) as (table' & Hi' & Hone).
  assert (table' = table) as -> by congruence.
  assert (Hfiled : TableMigrationIndex._index (TableMigrationIndex.init records)
                     !! (Py.lower (Table.database table), Py.lower (Table.name table))
                   = Some r).
  { change (Py.lower (Table.database table), Py.lower (Table.name table))
      with (legacy_key table).
    rewrite <- (CrawlFacts.crawl_table_key _ _ _ _ _ _ Hone : key_of r = legacy_key table).
    apply IndexFacts.init_lookup_unique; [by rewrite Hkeys|].
    apply list_elem_of_lookup. by exists i. }
  unfold TableMigrationIndex.is_migrated. rewrite IndexFacts.get_lookup, Hfiled.
  destruct (CrawlFacts.crawl_table_cases escape_sql_identifier w (candidates w) timestamp
              table)
    as [Hcase | [(e & _ & _ & Hcase) | (target & catalog & schema & name
                                        & Hkey & Hprobe & Hsplit & Hcase)]];
    rewrite Hcase in Hone; [|discriminate Hone|]; injection Hone as <-; simpl.
  - split; [|discriminate]. split; [discriminate|].
    intros (target & catalog & schema & name & Hkey & Hprobe & Hsplit & Hname).
    revert Hcase. unfold crawl_table. unfold live_probe in Hprobe.
    rewrite Hkey, Hprobe, Hsplit. simpl. discriminate.
  - assert (Hdest : destination
                      (replace (unmigrated (Py.lower (Table.database table))
                                  (Py.lower (Table.name table)) timestamp)
                         catalog schema name) = target).
    { unfold destination; simpl.
      rewrite <- (DottedFacts.split_three_join _ _ _ _ Hsplit).
      apply (candidate_lower_cased w _ _ Hkey). }
    destruct name as [|c name]; simpl.
    + split; [|discriminate]. split; [discriminate|].
      intros (target' & catalog' & schema' & name' & Hkey' & _ & Hsplit' & Hname').
      rewrite Hkey in Hkey'. injection Hkey' as <-. rewrite Hsplit in Hsplit'.
      by injection Hsplit' as _ _ <-.
    + split.
      * split; [|reflexivity]. intros _. by exists target, catalog, schema, (String c name).
      * intros r [= <-]. by rewrite Hdest.
Qed.

End Pass.

Lemma pass_records_shape_witness :
  ∃ table : Table.t,
    [legacy_orders] !! 0 = Some table ∧
    key_of (migrated_to legacy_orders "main" "sales" "orders" "1730000000.0") =
      legacy_key table ∧
    lower_cased "sales" ∧ lower_cased "orders" ∧
    Some "1730000000.0" = Some "1730000000.0" ∧
    ((Some "main" = None ∧ Some "sales" = None ∧ Some "orders" = @None string) ∨
     (∃ catalog schema name : string,
        Some "main" = Some catalog ∧ Some "sales" = Some schema ∧ Some "orders" = Some name ∧
        Forall (λ part, lower_cased part ∧ Py.contains "." part = false)
          [catalog; schema; name])).
Proof.
  apply (pass_records_shape backticks
           (store [upgraded "main.sales.orders" "hive_metastore.sales.orders"] marker_present)
           [legacy_orders] "1730000000.0" 0
           (migrated_to legacy_orders "main" "sales" "orders" "1730000000.0")).
  vm_compute. reflexivity.
Defined.

Lemma confirmed_candidate_is_migrated_witness :
  yielded (_crawl backticks
             (store [upgraded "main.sales.orders" "hive_metastore.sales.orders"] marker_present)
             [legacy_orders] "1730000000.0") !! 0 =
  Some (migrated_to legacy_orders "main" "sales" "orders" "1730000000.0").
Proof.
  apply (confirmed_candidate_is_migrated backticks
           (store [upgraded "main.sales.orders" "hive_metastore.sales.orders"] marker_present)
           [legacy_orders] "1730000000.0" 0 legacy_orders "main.sales.orders").
  - apply Nat.le_0_l.
  - reflexivity.
  - vm_compute. reflexivity.
  - vm_compute. reflexivity.
  - reflexivity.
Defined.

Lemma unconfirmed_is_unmigrated_witness :
  yielded (_crawl backticks
             (store [upgraded "main.sales.orders" "hive_metastore.sales.orders"] marker_absent)
             [legacy_orders] "1730000000.0") !! 0 =
  Some (unmigrated "sales" "orders" "1730000000.0").
Proof.
  apply (unconfirmed_is_unmigrated backticks
           (store [upgraded "main.sales.orders" "hive_metastore.sales.orders"] marker_absent)
           [legacy_orders] "1730000000.0" 0 legacy_orders).
  - apply Nat.le_0_l.
  - reflexivity.
  - right. vm_compute. reflexivity.
Defined.

Lemma pass_probes_candidates_only_witness :
  _crawl backticks
    (with_fetch (store [] marker_present) (λ _, MkIter [] (Some RemoteError)))
    [legacy_orders] "1730000000.0" =
  _crawl backticks (store [] marker_present) [legacy_orders] "1730000000.0".
Proof.
  apply (pass_probes_candidates_only backticks).
  intros table _ Hcandidate. exfalso. apply Hcandidate. vm_compute. reflexivity.
Defined.

Lemma index_over_pass_witness :
  (TableMigrationIndex.is_migrated
     (TableMigrationIndex.init
        (yielded (_crawl backticks
                    (store [upgraded "main.sales.orders" "hive_metastore.sales.orders"]
                           marker_present)
                    [legacy_orders] "1730000000.0")))
     "Sales" "Orders" = true ↔
   ∃ target catalog schema name : string,
     PyDict.get "hive_metastore.sales.orders"
       (candidates (store [upgraded "main.sales.orders" "hive_metastore.sales.orders"]
                          marker_present)) = Some target ∧
     live_probe backticks
       (store [upgraded "main.sales.orders" "hive_metastore.sales.orders"] marker_present)
       legacy_orders = Return true ∧
     Py.split "." target = [catalog; schema; name] ∧ name ≠ "") ∧
  (∀ r, TableMigrationIndex.get
          (TableMigrationIndex.init
             (yielded (_crawl backticks
                         (store [upgraded "main.sales.orders" "hive_metastore.sales.orders"]
                                marker_present)
                         [legacy_orders] "1730000000.0")))
          "Sales" "Orders" = Some r →
        PyDict.get "hive_metastore.sales.orders"
          (candidates (store [upgraded "main.sales.orders" "hive_metastore.sales.orders"]
                             marker_present)) = Some (destination r)).
Proof.
  apply (index_over_pass backticks
           (store [upgraded "main.sales.orders" "hive_metastore.sales.orders"] marker_present)
           [legacy_orders] "1730000000.0" legacy_orders).
  - vm_compute. reflexivity.
  - apply NoDup_singleton.
  - apply list_elem_of_here.
Defined.

End PassLaws.

(** ** Known libraries *)

Module KnownFacts.
Import Known.

Lemma append_assoc (a b c : string) : (a +:+ b) +:+ c = a +:+ (b +:+ c).
Proof.
  induction a as [|x a IH]; [reflexivity|]. exact (f_equal (String x) IH).
Qed.

Lemma prefix_app_iff (p s : string) :
  String.prefix p s = true ↔ ∃ rest : string, s = p +:+ rest.
Proof.
  revert s. induction p as [|c p IH]; intros s.
  - split; [intros _; by exists s|]. intros _. by destruct s.
  - destruct s as [|c' s]; simpl.
    + split; [discriminate|]. by intros [rest Hrest].
    + destruct (ascii_dec c c') as [->|Hne].
      * rewrite IH. split; intros [rest Hrest]; exists rest; [by rewrite Hrest|].
        by injection Hrest.
      * split; [discriminate|]. intros [rest Hrest]. by injection Hrest.
Qed.

Lemma matches_dotted_prefix (name module : string) :
  matches name module = true ↔ dotted_prefix module name.
Proof.
  unfold matches, dotted_prefix, startswith. rewrite orb_true_iff, String.eqb_eq, prefix_app_iff.
  split; intros [Heq | [rest Hrest]]; [by left| |by left|]; right; exists rest;
    [by rewrite Hrest, append_assoc|by rewrite Hrest, append_assoc].
Qed.

Lemma first_match_split (name : string) (items : list (string * list KnownProblem)) :
  (first_match name items = UNKNOWN ∧ Forall (λ kv, matches name kv.1 = false) items) ∨
  (∃ before module module_problems after,
     items = (before ++ (module, module_problems) :: after)%list ∧
     Forall (λ kv, matches name kv.1 = false) before ∧
     matches name module = true ∧
     first_match name items = MkCompatibility true module_problems).
Proof.
  induction items as [|[module module_problems] items IH]; simpl.
  - left. by split.
  - destruct (matches name module) eqn:Hm; simpl.
    + right. exists [], module, module_problems, items. by repeat split.
    + destruct IH as [[Hun Hall] | (before & m & ps & after & -> & Hall & Hmatch & Hfirst)].
      * left. split; [done|]. by constructor.
      * right. exists ((module, module_problems) :: before), m, ps, after.
        repeat split; [|done|done]. by constructor.
Qed.

Lemma first_match_known (name : string) (items : list (string * list KnownProblem)) :
  known (first_match name items) = true ↔ Exists (λ kv, matches name kv.1 = true) items.
Proof.
  induction items as [|[module module_problems] items IH]; simpl.
  - split; [discriminate|by inversion 1].
  - destruct (matches name module) eqn:Hm; simpl.
    + split; [intros _; by left|reflexivity].
    + rewrite IH. split; [by right|]. inversion 1; subst; [simpl in *; congruence|done].
Qed.

(** X15: [module_compatibility] answers unknown for the empty name; for
    any other name it answers with the problems of the first module of the
    dictionary, in its order, that is the name itself or a dotted ancestor of
    it, and unknown when there is none. *)
Theorem module_compatibility_first_ancestor (self : KnownList) (name : string) :
  (name = "" → module_compatibility self name = UNKNOWN) ∧
  (name ≠ "" →
   (module_compatibility self name = UNKNOWN ∧
    Forall (λ kv, ¬ dotted_prefix kv.1 name) (_module_problems self)) ∨
   (∃ before module module_problems after,
      _module_problems self = (before ++ (module, module_problems) :: after)%list ∧
      Forall (λ kv, ¬ dotted_prefix kv.1 name) before ∧
      dotted_prefix module name ∧
      module_compatibility self name = MkCompatibility true module_problems)).
Proof.
  split; [by intros ->|]. intros Hname.
  assert (Hmc : module_compatibility self name = first_match name (_module_problems self)).
  { by destruct name. }
  rewrite Hmc.
  assert (Hnot : ∀ items : list (string * list KnownProblem),
            Forall (λ kv, matches name kv.1 = false) items →
            Forall (λ kv, ¬ dotted_prefix kv.1 name) items).
  { intros items Hall. eapply Forall_impl; [exact Hall|]. intros kv Hkv Hprefix.
    apply matches_dotted_prefix in Hprefix. congruence. }
  destruct (first_match_split name (_module_problems self))
    as [[Hun Hall] | (before & m & ps & after & Heq & Hall & Hmatch & Hfirst)].
  - left. split; [done|]. by apply Hnot.
  - right. exists before, m, ps, after. repeat split; [done|by apply Hnot| |done].
    by apply matches_dotted_prefix.
Qed.

Lemma dotted_prefix_sub (module name sub : string) :
  dotted_prefix module name → dotted_prefix module (name +:+ "." +:+ sub).
Proof.
  intros [-> | [rest ->]]; right.
  - by exists sub.
  - exists (rest +:+ "." +:+ sub). by rewrite !append_assoc.
Qed.

(** X16: a submodule of a known module is known: when a name is known, so is
    every name obtained by appending a dot and more to it. *)
Theorem submodule_of_known_is_known (self : KnownList) (name sub : string) :
  known (module_compatibility self name) = true →
  known (module_compatibility self (name +:+ "." +:+ sub)) = true.
Proof.
  destruct name as [|c name]; [discriminate|].
  change (module_compatibility self (String c name))
    with (first_match (String c name) (_module_problems self)).
  change (module_compatibility self (String c name +:+ "." +:+ sub))
    with (first_match (String c name +:+ "." +:+ sub) (_module_problems self)).
  rewrite !first_match_known. intros Hknown. eapply Exists_impl; [exact Hknown|].
  intros [module ?]; simpl. rewrite !matches_dotted_prefix. apply dotted_prefix_sub.
Qed.

Lemma submodule_of_known_is_known_witness :
  known (module_compatibility
           (MkKnownList [("numpy", [MkKnownProblem "c" "m"]); ("os", [])] ∅)
           ("numpy" +:+ "." +:+ "linalg")) = true.
Proof.
  apply (submodule_of_known_is_known
           (MkKnownList [("numpy", [MkKnownProblem "c" "m"]); ("os", [])] ∅) "numpy" "linalg").
  reflexivity.
Defined.

Example module_compatibility_parent_first :
  module_compatibility
    (MkKnownList [("a", [MkKnownProblem "parent" ""]); ("a.b", [MkKnownProblem "child" ""])] ∅)
    "a.b.c" = MkCompatibility true [MkKnownProblem "parent" ""].
Proof. reflexivity. Qed.

(** *** Runs of a character class *)

Lemma append_nil (a : string) : a +:+ "" = a.
Proof. induction a as [|x a IH]; [reflexivity|]. exact (f_equal (String x) IH). Qed.

Lemma all_chars_app (p : ascii → bool) (a b : string) :
  all_chars p (a +:+ b) = all_chars p a && all_chars p b.
Proof.
  induction a as [|x a IH]; [reflexivity|].
  change (all_chars p (String x (a +:+ b)) = p x && all_chars p a && all_chars p b).
  simpl. by rewrite IH, andb_assoc.
Qed.

Lemma all_chars_impl (p q : ascii → bool) (s : string) :
  (∀ c, p c = true → q c = true) → all_chars p s = true → all_chars q s = true.
Proof.
  intros Hpq. induction s as [|c s IH]; simpl; [done|].
  rewrite !andb_true_iff. intros [Hc Hs]. split; [by apply Hpq|by apply IH].
Qed.

Lemma span_append (p : ascii → bool) (s : string) :
  s = fst (span p s) +:+ snd (span p s).
Proof.
  induction s as [|c s IH]; [reflexivity|]. simpl. destruct (p c); [|reflexivity].
  simpl. exact (f_equal (String c) IH).
Qed.

Lemma span_all (p : ascii → bool) (s : string) : all_chars p (fst (span p s)) = true.
Proof.
  induction s as [|c s IH]; [reflexivity|]. simpl. destruct (p c) eqn:Hc; [|reflexivity].
  simpl. by rewrite Hc, IH.
Qed.

Lemma span_run (p : ascii → bool) (a tail : string) :
  all_chars p a = true →
  (tail = "" ∨ ∃ c rest, tail = String c rest ∧ p c = false) →
  span p (a +:+ tail) = (a, tail).
Proof.
  intros Ha Htail. induction a as [|x a IH].
  - destruct Htail as [-> | (c & rest & -> & Hc)]; [reflexivity|]. simpl. by rewrite Hc.
  - simpl in Ha. apply andb_true_iff in Ha as [Hx Ha].
    change (span p (String x (a +:+ tail)) = (String x a, tail)).
    simpl. by rewrite Hx, (IH Ha).
Qed.

Lemma endswith_app (a p : string) : endswith (a +:+ p) p = true.
Proof.
  induction a as [|x a IH].
  - destruct p; simpl; [reflexivity|]. by rewrite Ascii.eqb_refl, String.eqb_refl.
  - change (endswith (String x (a +:+ p)) p = true). simpl. rewrite IH. apply orb_true_r.
Qed.

Lemma endswith_inv (s p : string) : endswith s p = true → ∃ a : string, s = a +:+ p.
Proof.
  induction s as [|c s IH].
  - change (endswith "" p) with (String.eqb p "" || false). rewrite orb_false_r.
    intros ->%String.eqb_eq. by exists "".
  - change (endswith (String c s) p) with (String.eqb p (String c s) || endswith s p).
    intros [->%String.eqb_eq | Hs]%orb_true_iff; [by exists ""|].
    destruct (IH Hs) as [a ->]. by exists (String c a).
Qed.

Lemma endswith_whl_dot (s : string) :
  endswith s ".whl" = true → all_chars (λ c, negb (Ascii.eqb c ".")) s = false.
Proof.
  intros [a ->]%endswith_inv. rewrite all_chars_app. apply andb_false_r.
Qed.

Lemma first_line_all (p : ascii → bool) (s : string) :
  all_chars p s = true → all_chars p (first_line s) = true.
Proof.
  induction s as [|c s IH]; simpl; [done|]. rewrite andb_true_iff. intros [Hc Hs].
  destruct (Ascii.eqb c "010"); [reflexivity|]. simpl. by rewrite Hc, IH.
Qed.

Lemma first_line_no_newline (s : string) :
  all_chars (λ c, negb (Ascii.eqb c "010")) s = true → first_line s = s.
Proof.
  induction s as [|c s IH]; simpl; [done|]. rewrite andb_true_iff. intros [Hc Hs].
  apply negb_true_iff in Hc. by rewrite Hc, IH.
Qed.

Lemma first_line_app (a b : string) :
  all_chars (λ c, negb (Ascii.eqb c "010")) a = true →
  first_line (a +:+ b) = a +:+ first_line b.
Proof.
  induction a as [|x a IH]; [reflexivity|]. simpl. rewrite andb_true_iff. intros [Hx Ha].
  apply negb_true_iff in Hx.
  change (first_line (String x (a +:+ b)) = String x (a +:+ first_line b)).
  simpl. by rewrite Hx, IH.
Qed.

Lemma endswith_suffix (a b p : string) : endswith b p = true → endswith (a +:+ b) p = true.
Proof.
  intros Hb. induction a as [|x a IH]; [exact Hb|].
  change (endswith (String x (a +:+ b)) p = true). simpl. rewrite IH. apply orb_true_r.
Qed.

(** *** Cleaned names *)

Lemma clean_char_facts (c : ascii) :
  clean_char c = true →
  requirement_char c = true ∧ Py.lower_ascii c = c ∧ Ascii.eqb c "_" = false ∧
  Ascii.eqb c "." = false.
Proof. destruct c as [[] [] [] [] [] [] [] []]; vm_compute; intros; by repeat split. Qed.

Lemma clean_char_of (c : ascii) :
  wheel_char c = true ∨ requirement_char c = true →
  clean_char (Py.lower_ascii (if Ascii.eqb c "_" then "-"%char else c)) = true.
Proof. destruct c as [[] [] [] [] [] [] [] []]; vm_compute; by intros [?|?]. Qed.

Lemma wheel_char_facts (c : ascii) :
  wheel_char c = true → Ascii.eqb c "-" = false ∧ Ascii.eqb c "010" = false.
Proof. destruct c as [[] [] [] [] [] [] [] []]; vm_compute; intros; by split. Qed.

Lemma cleaned_is_clean (raw : string) :
  all_chars (λ c, wheel_char c || requirement_char c) raw = true →
  all_chars clean_char (Py.lower (replace_char "_" "-" raw)) = true.
Proof.
  induction raw as [|c raw IH]; simpl; [done|]. rewrite andb_true_iff. intros [Hc Hraw].
  rewrite IH by done. rewrite clean_char_of; [reflexivity|].
  by apply orb_true_iff in Hc.
Qed.

Lemma clean_fixed (s : string) :
  all_chars clean_char s = true → Py.lower (replace_char "_" "-" s) = s.
Proof.
  induction s as [|c s IH]; simpl; [done|]. rewrite andb_true_iff. intros [Hc Hs].
  destruct (clean_char_facts c Hc) as (_ & Hlower & Hunder & _).
  by rewrite Hunder, Hlower, IH.
Qed.

Lemma clean_no_wheel (s : string) :
  all_chars clean_char s = true → match_wheel_name s = None.
Proof.
  intros Hclean. unfold match_wheel_name.
  pose proof (span_append wheel_char s) as Hsplit.
  destruct (span wheel_char s) as [[|c raw] [|d rest]]; try reflexivity.
  destruct d as [[] [] [] [] [] [] [] []]; try reflexivity.
  simpl in Hsplit. rewrite Hsplit in Hclean.
  change (all_chars clean_char (String c raw +:+ String "-" rest) = true) in Hclean.
  rewrite all_chars_app in Hclean. apply andb_true_iff in Hclean as [_ Hrest].
  simpl in Hrest.
  destruct (endswith (first_line rest) ".whl") eqn:Hends; [|reflexivity].
  apply endswith_whl_dot in Hends.
  rewrite (all_chars_impl clean_char _ (first_line rest)) in Hends; [discriminate| |].
  - intros x Hx. destruct (clean_char_facts x Hx) as (_ & _ & _ & ->). reflexivity.
  - by apply first_line_all.
Qed.

Lemma clean_requirement (c : ascii) (s : string) :
  all_chars clean_char (String c s) = true →
  match_requirement_specifier (String c s) = Some (String c s).
Proof.
  intros Hclean. unfold match_requirement_specifier.
  rewrite <- (append_nil (String c s)) at 1. rewrite span_run; [reflexivity| |by left].
  eapply all_chars_impl; [|exact Hclean]. intros x Hx. by destruct (clean_char_facts x Hx).
Qed.

Lemma cleanup_clean (s : string) :
  all_chars clean_char s = true → _cleanup_name s = s.
Proof.
  intros Hclean. unfold _cleanup_name. rewrite (clean_no_wheel s Hclean).
  destruct s as [|c s]; [reflexivity|]. rewrite (clean_requirement c s Hclean).
  by apply clean_fixed.
Qed.

Lemma cleanup_cases (name : string) :
  _cleanup_name name = name ∨
  (all_chars clean_char (_cleanup_name name) = true ∧ _cleanup_name name ≠ "").
Proof.
  unfold _cleanup_name, match_wheel_name, match_requirement_specifier.
  pose proof (span_all wheel_char name) as Hwheel.
  pose proof (span_all requirement_char name) as Hreq.
  assert (Hclean : ∀ (p : ascii → bool) (c : ascii) (raw : string),
            (∀ x, p x = true → wheel_char x || requirement_char x = true) →
            all_chars p (String c raw) = true →
            all_chars clean_char (Py.lower (replace_char "_" "-" (String c raw))) = true ∧
            Py.lower (replace_char "_" "-" (String c raw)) ≠ "").
  { intros p c raw Hp Hall. split; [|discriminate].
    apply cleaned_is_clean. by eapply all_chars_impl. }
  assert (Hrequirement :
            match fst (span requirement_char name) with
            | String c raw => Py.lower (replace_char "_" "-" (String c raw))
            | EmptyString => name
            end = name ∨
            all_chars clean_char
              match fst (span requirement_char name) with
              | String c raw => Py.lower (replace_char "_" "-" (String c raw))
              | EmptyString => name
              end = true ∧
            match fst (span requirement_char name) with
            | String c raw => Py.lower (replace_char "_" "-" (String c raw))
            | EmptyString => name
            end ≠ "").
  { destruct (fst (span requirement_char name)) as [|c raw]; [by left|]. right.
    apply (Hclean requirement_char); [|done]. intros x ->. apply orb_true_r. }
  destruct (span requirement_char name) as [requirement tail]; simpl in Hrequirement.
  destruct (span wheel_char name) as [[|c raw] [|d rest]]; simpl in Hwheel;
    try (destruct requirement; exact Hrequirement).
  destruct d as [[] [] [] [] [] [] [] []]; try (destruct requirement; exact Hrequirement).
  destruct (endswith (first_line rest) ".whl"); [|destruct requirement; exact Hrequirement].
  right. apply (Hclean wheel_char); [|done]. by intros x ->.
Qed.

Lemma cleanup_idempotent (name : string) :
  _cleanup_name (_cleanup_name name) = _cleanup_name name.
Proof.
  destruct (cleanup_cases name) as [Hsame | [Hclean _]].
  - by rewrite !Hsame.
  - by apply cleanup_clean.
Qed.

(** X17: [_cleanup_name] is idempotent, and it either leaves the name as it
    is or answers a non-empty name made of lower-case letters, digits and
    hyphens only. *)
Theorem cleanup_name_normal_form (name : string) :
  _cleanup_name (_cleanup_name name) = _cleanup_name name ∧
  (_cleanup_name name = name ∨
   (all_chars clean_char (_cleanup_name name) = true ∧ _cleanup_name name ≠ "")).
Proof. split; [apply cleanup_idempotent|apply cleanup_cases]. Qed.

Lemma match_wheel_ends (name raw : string) :
  match_wheel_name name = Some raw → endswith (first_line name) ".whl" = true.
Proof.
  unfold match_wheel_name. pose proof (span_append wheel_char name) as Hsplit.
  pose proof (span_all wheel_char name) as Hall.
  destruct (span wheel_char name) as [[|c run] [|d rest]]; try discriminate.
  destruct d as [[] [] [] [] [] [] [] []]; try discriminate.
  destruct (endswith (first_line rest) ".whl") eqn:Hends; [|discriminate]. intros _.
  simpl in Hsplit, Hall. rewrite Hsplit.
  change (String c run +:+ String "-" rest) with ((String c run) +:+ (String "-" rest)).
  rewrite first_line_app.
  - apply endswith_suffix.
    change (first_line (String "-" rest)) with (String "-" (first_line rest)).
    change (String "-" (first_line rest)) with ("-" +:+ first_line rest).
    by apply endswith_suffix.
  - eapply all_chars_impl; [|exact Hall]. intros x Hx.
    destruct (wheel_char_facts x Hx) as [_ ->]. reflexivity.
Qed.

Lemma replace_char_absent (old new : ascii) (s : string) :
  all_chars (λ c, negb (Ascii.eqb c old)) s = true → replace_char old new s = s.
Proof.
  induction s as [|c s IH]; simpl; [done|]. rewrite andb_true_iff. intros [Hc Hs].
  apply negb_true_iff in Hc. by rewrite Hc, IH.
Qed.

Lemma requirement_char_no_underscore (c : ascii) :
  requirement_char c = true → negb (Ascii.eqb c "_") = true.
Proof. destruct c as [[] [] [] [] [] [] [] []]; vm_compute; done. Qed.

Lemma cleanup_requirement (package tail : string) :
  package ≠ "" →
  all_chars requirement_char package = true →
  (tail = "" ∨ ∃ c rest, tail = String c rest ∧ requirement_char c = false) →
  endswith (first_line (package +:+ tail)) ".whl" = false →
  _cleanup_name (package +:+ tail) = Py.lower package.
Proof.
  intros Hne Hall Htail Hwhl. unfold _cleanup_name.
  destruct (match_wheel_name (package +:+ tail)) as [raw|] eqn:Hwheel.
  { apply match_wheel_ends in Hwheel. congruence. }
  unfold match_requirement_specifier. rewrite (span_run _ _ _ Hall Htail).
  destruct package as [|c package]; [done|].
  rewrite replace_char_absent; [reflexivity|].
  eapply all_chars_impl; [|exact Hall]. apply requirement_char_no_underscore.
Qed.

Lemma cleanup_wheel (distribution rest : string) :
  distribution ≠ "" →
  all_chars wheel_char distribution = true →
  all_chars (λ c, negb (Ascii.eqb c "010")) rest = true →
  _cleanup_name (distribution +:+ "-" +:+ rest +:+ ".whl") =
  Py.lower (replace_char "_" "-" distribution).
Proof.
  intros Hne Hall Hrest. unfold _cleanup_name, match_wheel_name.
  change (distribution +:+ "-" +:+ rest +:+ ".whl")
    with (distribution +:+ String "-" (rest +:+ ".whl")).
  rewrite (span_run wheel_char distribution (String "-" (rest +:+ ".whl")) Hall);
    [|right; by exists "-"%char, (rest +:+ ".whl")].
  destruct distribution as [|c distribution]; [done|].
  rewrite first_line_no_newline; [by rewrite endswith_app|].
  rewrite all_chars_app, Hrest. reflexivity.
Qed.

(** X18: what [_cleanup_name] extracts. From a package name (letters,
    digits, hyphens) followed by nothing or by a character that cannot be
    part of it, as a version specifier starts with, it extracts the
    lower-cased package name, provided the first line does not end in
    [.whl]; from a wheel file name it extracts the distribution part before
    the first hyphen, lower-cased, with underscores turned into hyphens. *)
Theorem cleanup_name_extracts :
  (∀ package tail : string,
     package ≠ "" →
     all_chars requirement_char package = true →
     (tail = "" ∨ ∃ c rest, tail = String c rest ∧ requirement_char c = false) →
     endswith (first_line (package +:+ tail)) ".whl" = false →
     _cleanup_name (package +:+ tail) = Py.lower package) ∧
  (∀ distribution rest : string,
     distribution ≠ "" →
     all_chars wheel_char distribution = true →
     all_chars (λ c, negb (Ascii.eqb c "010")) rest = true →
     _cleanup_name (distribution +:+ "-" +:+ rest +:+ ".whl") =
     Py.lower (replace_char "_" "-" distribution)).
Proof. split; [apply cleanup_requirement|apply cleanup_wheel]. Qed.

Lemma cleanup_name_extracts_witness :
  _cleanup_name ("numpy" +:+ "==1.21.0") = Py.lower "numpy".
Proof.
  apply (proj1 cleanup_name_extracts "numpy" "==1.21.0").
  - discriminate.
  - reflexivity.
  - right. by exists "="%char, "=1.21.0".
  - reflexivity.
Defined.

Example cleanup_name_wheel :
  _cleanup_name "databricks_labs_ucx-0.24.0-py3-none-any.whl" = "databricks-labs-ucx".
Proof. reflexivity. Qed.

(** With a directory in front, the wheel pattern does not apply and the
    directory name is what the requirement pattern extracts. *)
Example cleanup_name_wheel_path :
  _cleanup_name "dist/databricks_labs_ucx-0.24.0-py3-none-any.whl" = "dist".
Proof. reflexivity. Qed.

Lemma cleanup_nonempty (name : string) : name ≠ "" → _cleanup_name name ≠ "".
Proof.
  intros Hne. destruct (cleanup_cases name) as [-> | [_ ?]]; done.
Qed.

(** X19: [distribution_compatibility] answers unknown for the empty name,
    answers for a name as it does for the cleaned name, and so does not
    depend on a version specifier that follows a clean package name. *)
Theorem distribution_compatibility_cleaned (self : KnownList) :
  distribution_compatibility self "" = UNKNOWN ∧
  (∀ name, distribution_compatibility self (_cleanup_name name) =
           distribution_compatibility self name) ∧
  (∀ package tail : string,
     package ≠ "" →
     all_chars clean_char package = true →
     (tail = "" ∨ ∃ c rest, tail = String c rest ∧ requirement_char c = false) →
     endswith (first_line (package +:+ tail)) ".whl" = false →
     distribution_compatibility self (package +:+ tail) =
     distribution_compatibility self package).
Proof.
  assert (Hlookup : ∀ name, name ≠ "" →
            distribution_compatibility self name =
            match _library_problems self !! _cleanup_name name with
            | None => UNKNOWN
            | Some library_problems => MkCompatibility true library_problems
            end).
  { intros name Hne. by destruct name. }
  split; [reflexivity|]. split.
  - intros name. destruct name as [|c name]; [reflexivity|].
    rewrite !Hlookup by (done || by apply cleanup_nonempty).
    by rewrite cleanup_idempotent.
  - intros package tail Hne Hclean Htail Hwhl.
    rewrite !Hlookup by (done || by destruct package).
    rewrite (cleanup_clean package Hclean).
    rewrite cleanup_requirement; try done.
    + rewrite <- (clean_fixed package Hclean) at 2.
      rewrite replace_char_absent; [reflexivity|].
      eapply all_chars_impl; [|exact Hclean]. intros x Hx.
      destruct (clean_char_facts x Hx) as (_ & _ & -> & _). reflexivity.
    + eapply all_chars_impl; [|exact Hclean]. intros x Hx.
      by destruct (clean_char_facts x Hx).
Qed.

Lemma distribution_compatibility_cleaned_witness :
  distribution_compatibility
    (MkKnownList [] {[ "numpy" := [MkKnownProblem "c" "m"] ]}) ("numpy" +:+ ">=1.21") =
  distribution_compatibility
    (MkKnownList [] {[ "numpy" := [MkKnownProblem "c" "m"] ]}) "numpy".
Proof.
  apply (proj2 (proj2 (distribution_compatibility_cleaned
                         (MkKnownList [] {[ "numpy" := [MkKnownProblem "c" "m"] ]})))
           "numpy" ">=1.21").
  - discriminate.
  - reflexivity.
  - right. by exists ">"%char, "=1.21".
  - reflexivity.
Defined.

(** *** Requirement names *)

Lemma extract_no_delimiter (requirement : string) :
  all_chars (λ c, negb (bool_decide (c ∈ delimiters)))
    (_extract_library_name_from_requires_dist requirement) = true.
Proof.
  induction requirement as [|c requirement IH]; [reflexivity|]. simpl.
  destruct (bool_decide (c ∈ delimiters)) eqn:Hc; [reflexivity|]. simpl. by rewrite Hc, IH.
Qed.

Lemma extract_fixed (name : string) :
  all_chars (λ c, negb (bool_decide (c ∈ delimiters))) name = true →
  _extract_library_name_from_requires_dist name = name.
Proof.
  induction name as [|c name IH]; simpl; [done|]. rewrite andb_true_iff. intros [Hc Hname].
  apply negb_true_iff in Hc. by rewrite Hc, IH.
Qed.

(** X20: the library name extracted from a requirement is the part of the
    requirement before its first delimiter (space, [@], [<], [>], [;]), the
    whole requirement when it has none; it contains no delimiter, and
    extracting from it again changes nothing. *)
Theorem extract_library_name_before_delimiter (requirement : string) :
  all_chars (λ c, negb (bool_decide (c ∈ delimiters)))
    (_extract_library_name_from_requires_dist requirement) = true ∧
  (∃ tail : string,
     requirement = _extract_library_name_from_requires_dist requirement +:+ tail ∧
     (tail = "" ∨ ∃ c rest, tail = String c rest ∧ c ∈ delimiters)) ∧
  _extract_library_name_from_requires_dist
    (_extract_library_name_from_requires_dist requirement) =
  _extract_library_name_from_requires_dist requirement.
Proof.
  split; [apply extract_no_delimiter|]. split; [|apply extract_fixed, extract_no_delimiter].
  induction requirement as [|c requirement (tail & IH & Htail)].
  - exists "". by split; [|left].
  - simpl. destruct (bool_decide (c ∈ delimiters)) eqn:Hc.
    + exists (String c requirement). split; [reflexivity|]. right.
      exists c, requirement. split; [reflexivity|]. by apply bool_decide_eq_true in Hc.
    + exists tail. split; [|done]. exact (f_equal (String c) IH).
Qed.

Example extract_library_name_examples :
  _extract_library_name_from_requires_dist "requests (>=2.0) ; extra == 'x'" = "requests" ∧
  _extract_library_name_from_requires_dist "pkg@ https://example.org/pkg.whl" = "pkg" ∧
  _extract_library_name_from_requires_dist "numpy>=1.21" = "numpy" ∧
  _extract_library_name_from_requires_dist "pandas" = "pandas".
Proof. vm_compute. by repeat split. Qed.

End KnownFacts.

(** ** Building the known list *)

Module KnownInit.
Import Known.

(** *** The sort *)

Lemma insert_reverse_perm {V : Type} (item : string * V) (items : list (string * V)) :
  insert_reverse item items ≡ₚ item :: items.
Proof.
  induction items as [|item' items IH]; simpl; [reflexivity|].
  destruct (String.leb (fst item') (fst item)); [reflexivity|].
  rewrite IH. apply Permutation_swap.
Qed.

Lemma sorted_reverse_perm {V : Type} (items : list (string * V)) :
  sorted_reverse items ≡ₚ items.
Proof.
  induction items as [|item items IH]; simpl; [reflexivity|].
  by rewrite insert_reverse_perm, IH.
Qed.

Lemma insert_reverse_sorted {V : Type} (item : string * V) (items : list (string * V)) :
  StronglySorted (λ a b, String.leb (fst b) (fst a) = true) items →
  StronglySorted (λ a b, String.leb (fst b) (fst a) = true) (insert_reverse item items).
Proof.
  induction 1 as [|item' items Hsorted IH Hall]; simpl.
  - by repeat constructor.
  - destruct (String.leb (fst item') (fst item)) eqn:Hle.
    + constructor; [by constructor|]. constructor; [done|].
      eapply Forall_impl; [exact Hall|]. intros x Hx. simpl in Hx.
      apply Is_true_true. apply Is_true_true in Hx, Hle.
      exact (transitivity (R := String.le) Hx Hle).
    + constructor; [done|].
      rewrite insert_reverse_perm. constructor; [|done].
      destruct (String.leb_total (fst item') (fst item)) as [Hle' | Hle']; congruence.
Qed.

Lemma sorted_reverse_sorted {V : Type} (items : list (string * V)) :
  StronglySorted (λ a b, String.leb (fst b) (fst a) = true) (sorted_reverse items).
Proof.
  induction items as [|item items IH]; simpl; [constructor|].
  by apply insert_reverse_sorted.
Qed.

(** *** Dotted ancestors and the order of strings *)

Lemma leb_refl (a : string) : String.leb a a = true.
Proof. apply Is_true_true. exact (reflexivity (R := String.le) a). Qed.

Lemma leb_append (a z : string) : String.leb a (a +:+ z) = true.
Proof.
  unfold String.leb. induction a as [|c a IH].
  - by destruct z.
  - change (String c a +:+ z) with (String c (a +:+ z)). simpl.
    unfold Ascii.compare. rewrite N.compare_refl. exact IH.
Qed.

Lemma append_comparable (a b x y : string) :
  a +:+ x = b +:+ y → (∃ z, a = b +:+ z) ∨ (∃ z, b = a +:+ z).
Proof.
  revert b. induction a as [|c a IH]; intros b Heq.
  - right. by exists b.
  - destruct b as [|d b]; [left; by exists (String c a)|].
    injection Heq as -> Heq. destruct (IH b Heq) as [[z ->] | [z ->]].
    + left. by exists z.
    + right. by exists z.
Qed.

Lemma dotted_prefix_append (module name : string) :
  dotted_prefix module name → ∃ tail, name = module +:+ tail.
Proof.
  intros [-> | [rest ->]]; [exists ""; by rewrite KnownFacts.append_nil|by eexists].
Qed.

(** Of two dotted ancestors of a name, the one that is not greater as a
    string is a dotted ancestor of the other. *)
Lemma dotted_prefix_chain (m m' name : string) :
  dotted_prefix m name → dotted_prefix m' name → String.leb m' m = true →
  dotted_prefix m' m.
Proof.
  intros Hm Hm' Hle.
  destruct (dotted_prefix_append _ _ Hm) as [x Hx].
  destruct (dotted_prefix_append _ _ Hm') as [y Hy].
  assert (Hcmp : m +:+ x = m' +:+ y) by congruence.
  destruct (append_comparable _ _ _ _ Hcmp) as [[z Hz] | [z Hz]].
  - destruct z as [|c z]; [left; by rewrite Hz, KnownFacts.append_nil|].
    assert (Htail : name = m' +:+ String c (z +:+ x)).
    { rewrite Hx, Hz. apply KnownFacts.append_assoc. }
    destruct Hm' as [Heq | [rest Hrest]].
    + rewrite <- (KnownFacts.append_nil m') in Heq. rewrite Heq in Htail.
      apply (inj (String.append m')) in Htail. discriminate Htail.
    + rewrite Hrest in Htail. apply (inj (String.append m')) in Htail.
      injection Htail as <- _. right. by exists z.
  - assert (m' = m) as ->; [|by left].
    apply String.leb_antisym; [done|]. rewrite Hz. apply leb_append.
Qed.

(** *** The first key *)

Lemma first_key_app {V : Type} (name : string) (l1 l2 : list (string * V)) :
  first_key name (l1 ++ l2) =
  match first_key name l1 with
  | Some m => Some m
  | None => first_key name l2
  end.
Proof.
  induction l1 as [|item l1 IH]; simpl; [reflexivity|].
  by destruct (matches name (fst item)).
Qed.

Lemma first_key_None {V : Type} (name : string) (items : list (string * V)) :
  first_key name items = None ↔ Forall (λ kv, matches name kv.1 = false) items.
Proof.
  induction items as [|item items IH]; simpl.
  - split; [constructor|reflexivity].
  - destruct (matches name (fst item)) eqn:Hm.
    + split; [discriminate|]. inversion 1; congruence.
    + rewrite IH. split; [by constructor|by inversion 1].
Qed.

Lemma first_key_Some {V : Type} (name m : string) (items : list (string * V)) :
  first_key name items = Some m →
  ∃ before v after,
    items = (before ++ (m, v) :: after)%list ∧ matches name m = true ∧
    Forall (λ kv, matches name kv.1 = false) before.
Proof.
  induction items as [|[k v] items IH]; simpl; [discriminate|].
  destruct (matches name k) eqn:Hm.
  - intros [= <-]. by exists [], v, items.
  - intros Hfirst. destruct (IH Hfirst) as (before & v' & after & -> & Hmatch & Hbefore).
    exists ((k, v) :: before), v', after. repeat split; [done|]. by constructor.
Qed.

Lemma first_key_set {V : Type} (name k : string) (v : V) (d : list (string * V)) :
  first_key name (PyDict.set k v d) =
  match first_key name d with
  | Some m => Some m
  | None => if matches name k then Some k else None
  end.
Proof.
  induction d as [|[k0 v0] d IH]; simpl; [reflexivity|].
  destruct (decide (k = k0)) as [->|Hne]; simpl.
  - destruct (matches name k0) eqn:Hm; [reflexivity|]. by destruct (first_key name d).
  - destruct (matches name k0); [reflexivity|]. exact IH.
Qed.

Lemma first_key_assign {V : Type} (name : string) (l d : list (string * V)) :
  first_key name (foldl assign d l) =
  match first_key name d with
  | Some m => Some m
  | None => first_key name l
  end.
Proof.
  revert d. induction l as [|[k v] l IH]; intros d; simpl.
  - by destruct (first_key name d).
  - rewrite IH. unfold assign. simpl. rewrite first_key_set.
    destruct (first_key name d); [reflexivity|]. by destruct (matches name k).
Qed.

Lemma get_assign {V : Type} (k : string) (l d : list (string * V)) :
  PyDict.get k (foldl assign d l) =
  match PyDict.get k (reverse l) with
  | Some v => Some v
  | None => PyDict.get k d
  end.
Proof.
  induction l as [|[k' v'] l IH] using rev_ind; [reflexivity|].
  rewrite foldl_snoc, reverse_snoc. unfold assign at 1; simpl.
  rewrite DictFacts.get_set, IH. by destruct (decide (k = k')).
Qed.

Lemma first_match_key (name : string) (items : list (string * list KnownProblem)) :
  first_match name items =
  match first_key name items with
  | Some m => MkCompatibility true (default [] (PyDict.get m items))
  | None => UNKNOWN
  end.
Proof.
  induction items as [|[k v] items IH]; simpl; [reflexivity|].
  destruct (matches name k) eqn:Hm; simpl.
  - by destruct (decide (k = k)).
  - rewrite IH. destruct (first_key name items) as [m|] eqn:Hfirst; [|reflexivity].
    destruct (decide (m = k)) as [->|]; [|reflexivity].
    destruct (first_key_Some _ _ _ Hfirst) as (? & ? & ? & _ & Hmatch & _). congruence.
Qed.

(** *** The dictionaries after [__init__] *)

Lemma add_module_modules (distribution_name : string) (l : list (string * list KnownProblem))
  (self : KnownList) :
  _module_problems (foldl (add_module distribution_name) self l) =
  foldl assign (_module_problems self) l.
Proof. revert self. induction l as [|kv l IH]; intros self; simpl; [done|]. by rewrite IH. Qed.

Lemma add_distribution_modules
  (known : list (string * list (string * list KnownProblem))) (self : KnownList) :
  _module_problems (foldl add_distribution self known) =
  foldl assign (_module_problems self) (known ≫= λ entry, sorted_reverse (snd entry)).
Proof.
  revert self. induction known as [|entry known IH]; intros self; [reflexivity|].
  rewrite bind_cons, foldl_app. cbn [foldl]. rewrite IH. unfold add_distribution.
  by rewrite add_module_modules.
Qed.

Lemma add_stdlib_modules (names : list string) (self : KnownList) :
  _module_problems (foldl add_stdlib self names) =
  foldl assign (_module_problems self) ((λ name, (name, [])) <$> names).
Proof.
  revert self. induction names as [|name names IH]; intros self; [reflexivity|].
  rewrite fmap_cons. simpl. by rewrite IH.
Qed.

Lemma init_modules (known : list (string * list (string * list KnownProblem)))
  (stdlib_module_names : list string) :
  _module_problems (init known stdlib_module_names) =
  foldl assign [] (assignments known stdlib_module_names).
Proof.
  unfold init, assignments.
  by rewrite add_stdlib_modules, add_distribution_modules, foldl_app.
Qed.

Lemma init_lookup (known : list (string * list (string * list KnownProblem)))
  (stdlib_module_names : list string) (name : string) :
  name ≠ "" →
  module_compatibility (init known stdlib_module_names) name =
  match first_key name (assignments known stdlib_module_names) with
  | Some m =>
      MkCompatibility true
        (default [] (PyDict.get m (reverse (assignments known stdlib_module_names))))
  | None => UNKNOWN
  end.
Proof.
  intros Hne.
  assert (module_compatibility (init known stdlib_module_names) name =
          first_match name (_module_problems (init known stdlib_module_names))) as ->.
  { by destruct name. }
  rewrite first_match_key, init_modules, first_key_assign. simpl.
  destruct (first_key name _) as [m|]; [|reflexivity].
  rewrite get_assign. simpl. by destruct (PyDict.get m (reverse _)).
Qed.

Lemma get_app {V : Type} (k : string) (l1 l2 : list (string * V)) :
  PyDict.get k (l1 ++ l2) =
  match PyDict.get k l1 with
  | Some v => Some v
  | None => PyDict.get k l2
  end.
Proof.
  induction l1 as [|[k' v'] l1 IH]; simpl; [reflexivity|]. by destruct (decide (k = k')).
Qed.

Lemma get_constant {V : Type} (k : string) (v : V) (l : list (string * V)) :
  Forall (λ kv, kv.2 = v) l → k ∈ l.*1 → PyDict.get k l = Some v.
Proof.
  induction l as [|[k' v'] l IH]; csimpl.
  - by intros _ ?%elem_of_nil.
  - intros Hall Hin. apply Forall_cons in Hall as [Hv Hall]. simpl in Hv. subst v'.
    destruct (decide (k = k')); [reflexivity|].
    apply elem_of_cons in Hin as [?|Hin]; [done|]. by apply IH.
Qed.

Lemma contains_dot_app (a b : string) : Py.contains "." (a +:+ "." +:+ b) = true.
Proof.
  induction a as [|c a IH].
  - change ("" +:+ "." +:+ b) with (String "." b). by rewrite DottedFacts.contains_char.
  - change (String c a +:+ "." +:+ b) with (String c (a +:+ "." +:+ b)).
    rewrite DottedFacts.contains_char, IH. by destruct (Ascii.eqb "." c).
Qed.

Lemma matches_dot_free (name module : string) :
  Py.contains "." name = false → matches name module = true → module = name.
Proof.
  intros Hfree [-> | [rest ->]]%KnownFacts.matches_dotted_prefix; [reflexivity|].
  by rewrite contains_dot_app in Hfree.
Qed.

Lemma matches_refl (name : string) : matches name name = true.
Proof. unfold matches. by rewrite String.eqb_refl. Qed.

(** X21: after [__init__], every non-empty standard-library module name
    without a dot is known and has no problems, whatever [known.json] says
    about a module of that name. *)
Theorem stdlib_modules_have_no_problems
  (known : list (string * list (string * list KnownProblem)))
  (stdlib_module_names : list string) (name : string) :
  name ∈ stdlib_module_names →
  name ≠ "" →
  Py.contains "." name = false →
  module_compatibility (init known stdlib_module_names) name = MkCompatibility true [].
Proof.
  intros Hin Hne Hfree. rewrite init_lookup by done.
  assert (Hkey : (name, @nil KnownProblem) ∈ assignments known stdlib_module_names).
  { unfold assignments. apply elem_of_app. right. apply list_elem_of_fmap. by exists name. }
  destruct (first_key name (assignments known stdlib_module_names)) as [m|] eqn:Hfirst.
  - destruct (first_key_Some _ _ _ Hfirst) as (_ & _ & _ & _ & Hmatch & _).
    apply (matches_dot_free _ _ Hfree) in Hmatch as ->.
    unfold assignments. rewrite reverse_app, get_app.
    rewrite (get_constant name [] (reverse _)); [reflexivity| |].
    + apply Forall_reverse, Forall_fmap, Forall_forall. by intros ? _.
    + rewrite <- fmap_reverse, <- list_fmap_compose. simpl.
      rewrite list_fmap_id. by apply elem_of_reverse.
  - apply first_key_None in Hfirst.
    pose proof (proj1 (Forall_forall _ _) Hfirst _ Hkey) as Hno. simpl in Hno.
    by rewrite matches_refl in Hno.
Qed.

Lemma stdlib_modules_have_no_problems_witness :
  module_compatibility
    (init [("shadow", [("os", [MkKnownProblem "c" "m"])])] ["sys"; "os"]) "os" =
  MkCompatibility true [].
Proof.
  apply (stdlib_modules_have_no_problems
           [("shadow", [("os", [MkKnownProblem "c" "m"])])] ["sys"; "os"] "os").
  - apply list_elem_of_further, list_elem_of_here.
  - discriminate.
  - reflexivity.
Defined.

Lemma assignments_split (before after : list (string * list (string * list KnownProblem)))
  (entry : string * list (string * list KnownProblem)) (stdlib_module_names : list string) :
  assignments (before ++ entry :: after) stdlib_module_names =
  ((before ≫= λ e, sorted_reverse (snd e)) ++ sorted_reverse (snd entry) ++
   assignments after stdlib_module_names)%list.
Proof. unfold assignments. by rewrite bind_app, bind_cons, <- !app_assoc. Qed.

Lemma sorted_first_key_specific {V : Type} (name m : string) (items : list (string * V)) :
  first_key name (sorted_reverse items) = Some m →
  dotted_prefix m name ∧
  Forall (λ kv, dotted_prefix kv.1 name → dotted_prefix kv.1 m) items.
Proof.
  intros Hfirst.
  destruct (first_key_Some _ _ _ Hfirst) as (before & v & after & Heq & Hmatch & Hbefore).
  apply KnownFacts.matches_dotted_prefix in Hmatch. split; [done|].
  pose proof (sorted_reverse_sorted items) as Hsorted. rewrite Heq in Hsorted.
  apply StronglySorted_app_1_r, StronglySorted_cons in Hsorted as [Hafter _].
  apply Forall_forall. intros kv Hin Hprefix.
  rewrite <- (sorted_reverse_perm items), Heq in Hin.
  apply elem_of_app in Hin as [Hin | Hin].
  - pose proof (proj1 (Forall_forall _ _) Hbefore _ Hin) as Hno.
    apply KnownFacts.matches_dotted_prefix in Hprefix. congruence.
  - apply elem_of_cons in Hin as [-> | Hin]; [by left|].
    pose proof (proj1 (Forall_forall _ _) Hafter _ Hin) as Hle. simpl in Hle.
    by eapply dotted_prefix_chain.
Qed.

(** X22: specific modules come first. Let a distribution of [known.json] be
    the first one that lists the name or a dotted ancestor of it. Then the
    name is known, and the module that decides is the most specific one that
    this distribution lists for the name: every module it lists that is the
    name or an ancestor of it is that module or an ancestor of that module.
    The problems are those listed with that module, unless a later
    distribution or the standard library assigns to the same module again. *)
Theorem most_specific_module_first
  (before after : list (string * list (string * list KnownProblem)))
  (distribution_name : string) (modules : list (string * list KnownProblem))
  (stdlib_module_names : list string) (name : string) :
  name ≠ "" →
  NoDup modules.*1 →
  Forall (λ entry, Forall (λ kv, ¬ dotted_prefix kv.1 name) entry.2) before →
  Exists (λ kv, dotted_prefix kv.1 name) modules →
  ∃ (module : string) (module_problems : list KnownProblem),
    (module, module_problems) ∈ modules ∧
    dotted_prefix module name ∧
    Forall (λ kv, dotted_prefix kv.1 name → dotted_prefix kv.1 module) modules ∧
    Known.known
      (module_compatibility
         (init (before ++ (distribution_name, modules) :: after) stdlib_module_names)
         name) = true ∧
    (Forall (λ entry, module ∉ entry.2.*1) after →
     module ∉ stdlib_module_names →
     module_compatibility
       (init (before ++ (distribution_name, modules) :: after) stdlib_module_names) name =
     MkCompatibility true module_problems).
Proof.
  intros Hne Hnd Hbefore Hsome. rewrite init_lookup by done.
  rewrite assignments_split. cbn [snd].
  assert (Hnone : first_key name (before ≫= λ e, sorted_reverse e.2) = None).
  { apply first_key_None, Forall_bind. eapply Forall_impl; [exact Hbefore|].
    intros entry Hentry. simpl. rewrite sorted_reverse_perm.
    eapply Forall_impl; [exact Hentry|]. intros kv Hkv. simpl in Hkv.
    destruct (matches name kv.1) eqn:Hm; [|reflexivity].
    by apply KnownFacts.matches_dotted_prefix in Hm. }
  rewrite !first_key_app, Hnone.
  destruct (first_key name (sorted_reverse modules)) as [m|] eqn:Hfirst.
  - destruct (sorted_first_key_specific _ _ _ Hfirst) as [Hprefix Hspecific].
    destruct (first_key_Some _ _ _ Hfirst) as (b & v & a & Heq & _ & _).
    assert (Hin : (m, v) ∈ modules).
    { rewrite <- (sorted_reverse_perm modules), Heq. apply elem_of_app. right.
      apply list_elem_of_here. }
    exists m, v. repeat split; [done|done|done|].
    intros Hafter Hstd. f_equal.
    rewrite !reverse_app, !get_app.
    assert (PyDict.get m (reverse (assignments after stdlib_module_names)) = None) as ->.
    { apply DictLaws.get_None. rewrite fmap_reverse, elem_of_reverse.
      unfold assignments. rewrite fmap_app, elem_of_app. intros [Hin' | Hin'].
      - apply list_elem_of_fmap in Hin' as ([k' v'] & -> & Hin').
        apply list_elem_of_bind in Hin' as (entry & Hin' & Hentry).
        rewrite sorted_reverse_perm in Hin'.
        apply (proj1 (Forall_forall _ _) Hafter _ Hentry).
        apply list_elem_of_fmap. by exists (k', v').
      - rewrite <- list_fmap_compose in Hin'. simpl in Hin'.
        by rewrite list_fmap_id in Hin'. }
    rewrite (DictLaws.elem_of_get m v (reverse (sorted_reverse modules))); [reflexivity| |].
    + by rewrite fmap_reverse, reverse_Permutation, sorted_reverse_perm.
    + by rewrite elem_of_reverse, sorted_reverse_perm.
  - apply first_key_None in Hfirst. rewrite sorted_reverse_perm in Hfirst.
    apply Exists_exists in Hsome as (kv & Hin & Hprefix).
    pose proof (proj1 (Forall_forall _ _) Hfirst _ Hin) as Hno. simpl in Hno.
    apply KnownFacts.matches_dotted_prefix in Hprefix. congruence.
Qed.

Lemma most_specific_module_first_witness :
  ∃ (module : string) (module_problems : list KnownProblem),
    (module, module_problems) ∈
      [("google", [MkKnownProblem "parent" ""]);
       ("google.cloud", [MkKnownProblem "child" ""])] ∧
    dotted_prefix module "google.cloud.storage" ∧
    Forall (λ kv, dotted_prefix kv.1 "google.cloud.storage" → dotted_prefix kv.1 module)
      [("google", [MkKnownProblem "parent" ""]);
       ("google.cloud", [MkKnownProblem "child" ""])] ∧
    Known.known
      (module_compatibility
         (init ([("numpy", [("numpy", [])])] ++
                ("google-cloud",
                 [("google", [MkKnownProblem "parent" ""]);
                  ("google.cloud", [MkKnownProblem "child" ""])]) :: [])
               ["os"])
         "google.cloud.storage") = true ∧
    (Forall (λ entry : string * list (string * list KnownProblem), module ∉ entry.2.*1) [] →
     module ∉ ["os"] →
     module_compatibility
       (init ([("numpy", [("numpy", [])])] ++
              ("google-cloud",
               [("google", [MkKnownProblem "parent" ""]);
                ("google.cloud", [MkKnownProblem "child" ""])]) :: [])
             ["os"])
       "google.cloud.storage" =
     MkCompatibility true module_problems).
Proof.
  apply (most_specific_module_first
           [("numpy", [("numpy", [])])] [] "google-cloud"
           [("google", [MkKnownProblem "parent" ""]);
            ("google.cloud", [MkKnownProblem "child" ""])]
           ["os"] "google.cloud.storage").
  - discriminate.
  - apply NoDup_cons. split; [|apply NoDup_singleton].
    intros Hin%list_elem_of_singleton. discriminate Hin.
  - repeat constructor. simpl. intros [Heq | [rest Heq]]; discriminate Heq.
  - right. left. right. by exists "storage".
Defined.

Example most_specific_module_first_example :
  module_compatibility
    (init [("numpy", [("numpy", [])]);
           ("google-cloud",
            [("google", [MkKnownProblem "parent" ""]);
             ("google.cloud", [MkKnownProblem "child" ""])])]
          ["os"])
    "google.cloud.storage" = MkCompatibility true [MkKnownProblem "child" ""].
Proof. vm_compute. reflexivity. Qed.

(** A less specific module of an earlier distribution hides a more specific
    one of a later distribution. *)
Example earlier_distribution_first :
  module_compatibility
    (init [("google-api", [("google", [MkKnownProblem "parent" ""])]);
           ("google-cloud", [("google.cloud", [MkKnownProblem "child" ""])])]
          [])
    "google.cloud.storage" = MkCompatibility true [MkKnownProblem "parent" ""].
Proof. vm_compute. reflexivity. Qed.

(** *** The problems of a distribution *)

Lemma add_module_library (distribution_name : string)
  (l : list (string * list KnownProblem)) (self : KnownList) (k : string) :
  _library_problems (foldl (add_module distribution_name) self l) !! k =
  if decide (k = distribution_name)
  then match l with
       | [] => _library_problems self !! k
       | _ :: _ =>
           Some (default [] (_library_problems self !! k) ++ concat (snd <$> l))%list
       end
  else _library_problems self !! k.
Proof.
  revert self. induction l as [|kv l IH]; intros self.
  - simpl. by destruct (decide (k = distribution_name)).
  - cbn [foldl]. rewrite IH. unfold add_module; cbn [_library_problems].
    destruct (decide (k = distribution_name)) as [->|Hne].
    + rewrite lookup_insert_eq. simpl. destruct l as [|kv' l].
      * simpl. by rewrite app_nil_r.
      * by rewrite <- app_assoc.
    + by rewrite lookup_insert_ne.
Qed.

Lemma sorted_reverse_nil {V : Type} (items : list (string * V)) :
  sorted_reverse items = [] → items = [].
Proof.
  intros Hnil. apply Permutation_nil_r. by rewrite <- (sorted_reverse_perm items), Hnil.
Qed.

Lemma add_distribution_library (self : KnownList)
  (entry : string * list (string * list KnownProblem)) (k : string) :
  _library_problems (add_distribution self entry) !! k =
  if decide (k = fst entry)
  then match snd entry with
       | [] => _library_problems self !! k
       | _ :: _ =>
           Some (default [] (_library_problems self !! k)
                 ++ concat (snd <$> sorted_reverse (snd entry)))%list
       end
  else _library_problems self !! k.
Proof.
  unfold add_distribution, PyDict.items. rewrite add_module_library.
  destruct (decide (k = fst entry)); [|reflexivity].
  destruct (sorted_reverse (snd entry)) as [|kv l] eqn:Hsorted.
  - by rewrite (sorted_reverse_nil _ Hsorted).
  - destruct (snd entry); [discriminate Hsorted|reflexivity].
Qed.

Lemma add_distributions_other (known_json : list (string * list (string * list KnownProblem)))
  (self : KnownList) (k : string) :
  k ∉ known_json.*1 →
  _library_problems (foldl add_distribution self known_json) !! k =
  _library_problems self !! k.
Proof.
  revert self. induction known_json as [|entry known_json IH]; intros self; csimpl; [done|].
  rewrite not_elem_of_cons. intros [Hne Hout].
  rewrite IH by done. rewrite add_distribution_library. by destruct (decide (k = entry.1)).
Qed.

Lemma add_distributions_library
  (known_json : list (string * list (string * list KnownProblem))) (self : KnownList)
  (distribution_name : string) (modules : list (string * list KnownProblem)) :
  NoDup known_json.*1 →
  (distribution_name, modules) ∈ known_json →
  _library_problems (foldl add_distribution self known_json) !! distribution_name =
  match modules with
  | [] => _library_problems self !! distribution_name
  | _ :: _ =>
      Some (default [] (_library_problems self !! distribution_name)
            ++ concat (snd <$> sorted_reverse modules))%list
  end.
Proof.
  revert self. induction known_json as [|entry known_json IH]; intros self; csimpl.
  - by intros _ ?%elem_of_nil.
  - intros [Hfresh Hnd]%NoDup_cons [Heq | Hin]%elem_of_cons.
    + subst entry. rewrite add_distributions_other by done. rewrite add_distribution_library. simpl.
      by destruct (decide (distribution_name = distribution_name)).
    + rewrite IH by done. rewrite add_distribution_library.
      destruct (decide (distribution_name = entry.1)) as [->|]; [|reflexivity].
      destruct Hfresh. apply list_elem_of_fmap. by exists (entry.1, modules).
Qed.

Lemma add_stdlib_library (names : list string) (self : KnownList) :
  _library_problems (foldl add_stdlib self names) = _library_problems self.
Proof. revert self. induction names as [|name names IH]; intros self; simpl; [done|]. by rewrite IH. Qed.

(** X23: after [__init__], a distribution with a clean name that
    [known.json] lists with modules is known, and its problems are those of
    its modules, collected in descending order of the module names; a
    distribution listed without modules, or not listed, is unknown. *)
Theorem distribution_problems_collected
  (known_json : list (string * list (string * list KnownProblem)))
  (stdlib_module_names : list string) (distribution_name : string) :
  NoDup known_json.*1 →
  distribution_name ≠ "" →
  all_chars clean_char distribution_name = true →
  (∀ modules, (distribution_name, modules) ∈ known_json →
     distribution_compatibility (init known_json stdlib_module_names) distribution_name =
     match modules with
     | [] => UNKNOWN
     | _ :: _ => MkCompatibility true (concat (snd <$> sorted_reverse modules))
     end) ∧
  (distribution_name ∉ known_json.*1 →
   distribution_compatibility (init known_json stdlib_module_names) distribution_name =
   UNKNOWN).
Proof.
  intros Hnd Hne Hclean.
  assert (Hdc : distribution_compatibility (init known_json stdlib_module_names)
                  distribution_name =
                match _library_problems (foldl add_distribution (MkKnownList [] ∅) known_json)
                        !! distribution_name with
                | None => UNKNOWN
                | Some library_problems => MkCompatibility true library_problems
                end).
  { unfold distribution_compatibility, init, PyDict.items.
    rewrite add_stdlib_library, (KnownFacts.cleanup_clean _ Hclean).
    by destruct distribution_name. }
  rewrite Hdc. split.
  - intros modules Hin. rewrite (add_distributions_library _ _ _ modules) by done.
    cbn [_library_problems]. rewrite lookup_empty. by destruct modules.
  - intros Hout. rewrite add_distributions_other by done.
    cbn [_library_problems]. by rewrite lookup_empty.
Qed.

Lemma distribution_problems_collected_witness :
  (∀ modules,
     ("numpy", modules) ∈
       [("numpy", [("numpy", [MkKnownProblem "a" ""]); ("numpy.linalg", [MkKnownProblem "b" ""])]);
        ("empty", [])] →
     distribution_compatibility
       (init [("numpy", [("numpy", [MkKnownProblem "a" ""]);
                         ("numpy.linalg", [MkKnownProblem "b" ""])]);
              ("empty", [])] ["os"]) "numpy" =
     match modules with
     | [] => UNKNOWN
     | _ :: _ => MkCompatibility true (concat (snd <$> sorted_reverse modules))
     end) ∧
  ("numpy" ∉
     [("numpy", [("numpy", [MkKnownProblem "a" ""]); ("numpy.linalg", [MkKnownProblem "b" ""])]);
      ("empty", @nil (string * list KnownProblem))].*1 →
   distribution_compatibility
     (init [("numpy", [("numpy", [MkKnownProblem "a" ""]);
                       ("numpy.linalg", [MkKnownProblem "b" ""])]);
            ("empty", [])] ["os"]) "numpy" = UNKNOWN).
Proof.
  apply (distribution_problems_collected
           [("numpy", [("numpy", [MkKnownProblem "a" ""]);
                       ("numpy.linalg", [MkKnownProblem "b" ""])]);
            ("empty", [])] ["os"] "numpy").
  - apply NoDup_cons. split; [|apply NoDup_singleton].
    intros Hin%list_elem_of_singleton. discriminate Hin.
  - discriminate.
  - reflexivity.
Defined.

Example distribution_problems_examples :
  distribution_compatibility
    (init [("numpy", [("numpy", [MkKnownProblem "a" ""]);
                      ("numpy.linalg", [MkKnownProblem "b" ""])]);
           ("empty", [])] ["os"]) "numpy>=1.21" =
    MkCompatibility true [MkKnownProblem "b" ""; MkKnownProblem "a" ""] ∧
  distribution_compatibility
    (init [("numpy", [("numpy", [MkKnownProblem "a" ""])]); ("empty", [])] ["os"]) "empty" =
    UNKNOWN.
Proof. vm_compute. by split. Qed.

End KnownInit.
